(** * boltstore: a gorilla/sessions store on bbolt

    A shallow embedding of [store.go], [load.go], [reaper.go] and of the
    file holding [Save]/[save], together with the parts of the Go standard
    library, of bbolt and of gorilla that these functions call.

    Conventions.
    - Go [string] and [[]byte] are both [string] (a list of bytes); the
      conversions [[]byte(s)] and [string(b)] are the identity.
    - [int], [int64] and [time.Duration] are [Z]; where the Go code can
      wrap around, the wrap is written out with [wrap64].
    - A function returning [error] returns [option error] ([None] is nil).
    - A nil pointer dereference is the outcome [Panic] of the type [go]. *)

From Stdlib Require Import ZArith List String Ascii Bool Sorted Lia.
Import ListNotations.

Local Open Scope string_scope.
Local Open Scope Z_scope.

Set Implicit Arguments.

(* ------------------------------------------------------------------ *)
(** ** Outcomes of Go calls *)

Inductive go (A : Type) : Type :=
| Return (a : A)
| Panic.

Arguments Return {A} a.
Arguments Panic {A}.

Definition go_bind {A B} (m : go A) (k : A -> go B) : go B :=
  match m with
  | Return a => k a
  | Panic => Panic
  end.

(* ------------------------------------------------------------------ *)
(** ** The Go standard library, as far as the store uses it *)

Module GoStd.

(** int64 arithmetic wraps around silently. *)
Definition wrap64 (z : Z) : Z := (z + 2 ^ 63) mod 2 ^ 64 - 2 ^ 63.

Definition maxUint64 : Z := 2 ^ 64 - 1.

(** *** strconv *)

Inductive NumError : Type := ErrSyntax | ErrRange.

Definition is_digit (c : ascii) : bool :=
  let n := Z.of_N (N_of_ascii c) in (48 <=? n) && (n <=? 57).

Definition digit_val (c : ascii) : Z := Z.of_N (N_of_ascii c) - 48.

(** The loop of [strconv.ParseUint(s, 10, 64)].  [cutoff] is
    [maxUint64/10 + 1]; the first overflow ends the loop with a range
    error, a byte that is no decimal digit with a syntax error. *)
Definition cutoff10 : Z := maxUint64 / 10 + 1.

Fixpoint parseUint_loop (s : string) (n : Z) : Z + NumError :=
  match s with
  | EmptyString => inl n
  | String c rest =>
      if is_digit c then
        if n >=? cutoff10 then inr ErrRange
        else
          let n10 := n * 10 in
          let n1 := (n10 + digit_val c) mod 2 ^ 64 in
          if (n1 <? n10) || (n1 >? maxUint64) then inr ErrRange
          else parseUint_loop rest n1
      else inr ErrSyntax
  end.

Definition ParseUint (s : string) : Z + NumError :=
  match s with
  | EmptyString => inr ErrSyntax
  | _ => parseUint_loop s 0
  end.

(** [strconv.ParseInt(s, 10, 64)]: an optional sign, then [ParseUint];
    the magnitude is checked against [1 << 63]. *)
Definition ParseInt (s : string) : Z + NumError :=
  match s with
  | EmptyString => inr ErrSyntax
  | String c rest =>
      let '(neg, s1) :=
        if Ascii.eqb c "+" then (false, rest)
        else if Ascii.eqb c "-" then (true, rest)
        else (false, s) in
      match ParseUint s1 with
      | inr ErrSyntax => inr ErrSyntax
      | r =>
          let un := match r with inl n => n | inr _ => maxUint64 end in
          let cutoff := 2 ^ 63 in
          if negb neg && (un >=? cutoff) then inr ErrRange
          else if neg && (un >? cutoff) then inr ErrRange
          else inl (if neg then - un else un)
      end
  end.

Definition digit_char (d : Z) : ascii := ascii_of_N (Z.to_N (48 + d)).

(** The digit loop of [strconv.FormatInt(i, 10)] (one digit per round;
    Go emits two per round from a table, with the same result).  Twenty
    rounds cover every uint64. *)
Fixpoint formatBits (fuel : nat) (u : Z) (acc : string) : string :=
  match fuel with
  | O => acc
  | S f =>
      let acc' := String (digit_char (u mod 10)) acc in
      if u <? 10 then acc' else formatBits f (u / 10) acc'
  end.

Definition FormatInt (i : Z) : string :=
  if i <? 0 then String "-" (formatBits 20 (- i) "")
  else formatBits 20 i "".

(** *** time *)

(** A [time.Time] without its monotonic reading and location: the
    seconds since January 1 of year 1 (an int64) and the nanoseconds
    within the second. *)
Record Time : Type := mkTime { t_sec : Z; t_nsec : Z }.

Definition unixToInternal : Z := 62135596800.

(** [time.Unix(sec, 0)]: [Time{0, sec + unixToInternal, Local}]. *)
Definition time_Unix (sec : Z) : Time :=
  mkTime (wrap64 (sec + unixToInternal)) 0.

(** [t.Unix()]. *)
Definition Time_Unix (t : Time) : Z := wrap64 (t_sec t - unixToInternal).

(** [t.Before(u)] when [t] carries no monotonic reading. *)
Definition Time_Before (t u : Time) : bool :=
  (t_sec t <? t_sec u) || ((t_sec t =? t_sec u) && (t_nsec t <? t_nsec u)).

(** [t.Add(d)], [d] in nanoseconds; Go's [/] and [%] truncate. *)
Definition Time_Add (t : Time) (d : Z) : Time :=
  let dsec := Z.quot d 1000000000 in
  let nsec := t_nsec t + Z.rem d 1000000000 in
  if nsec >=? 1000000000 then
    mkTime (wrap64 (t_sec t + (dsec + 1))) (nsec - 1000000000)
  else if nsec <? 0 then
    mkTime (wrap64 (t_sec t + (dsec - 1))) (nsec + 1000000000)
  else mkTime (wrap64 (t_sec t + dsec)) nsec.

(** The clock reading [time.Now()] at Unix second [s], nanosecond [n]. *)
Definition clock (s n : Z) : Time := mkTime (s + unixToInternal) n.

(** *** strings *)

Fixpoint in_cutset (c : ascii) (cutset : string) : bool :=
  match cutset with
  | EmptyString => false
  | String d rest => Ascii.eqb c d || in_cutset c rest
  end.

(** [strings.TrimRight(s, cutset)] on byte strings. *)
Fixpoint TrimRight (s cutset : string) : string :=
  match s with
  | EmptyString => EmptyString
  | String c rest =>
      match TrimRight rest cutset with
      | EmptyString => if in_cutset c cutset then EmptyString else String c EmptyString
      | r => String c r
      end
  end.

(** *** encoding/base32 *)

Definition encodeStd : string := "ABCDEFGHIJKLMNOPQRSTUVWXYZ234567".

Definition u8 (z : Z) : Z := z mod 256.

(** [enc.encode[b & 31]] for [StdEncoding]. *)
Definition enc32 (b : Z) : ascii :=
  nth (Z.to_nat (Z.land b 31)) (list_ascii_of_string encodeStd) "A"%char.

Definition padChar : ascii := "="%char.

Definition str (l : list ascii) : string := string_of_list_ascii l.

(** [base32.StdEncoding.EncodeToString]: each group of five bytes gives
    eight characters; a shorter last group is padded with [=]. *)
Fixpoint EncodeToString (src : list Z) : string :=
  match src with
  | [] => EmptyString
  | [s0] =>
      let b1 := Z.land (u8 (Z.shiftl s0 2)) 31 in
      let b0 := Z.shiftr s0 3 in
      str [enc32 b0; enc32 b1; padChar; padChar; padChar; padChar; padChar; padChar]
  | [s0; s1] =>
      let b3 := Z.land (u8 (Z.shiftl s1 4)) 31 in
      let b2 := Z.land (Z.shiftr s1 1) 31 in
      let b1 := Z.lor (Z.land (Z.shiftr s1 6) 31) (Z.land (u8 (Z.shiftl s0 2)) 31) in
      let b0 := Z.shiftr s0 3 in
      str [enc32 b0; enc32 b1; enc32 b2; enc32 b3; padChar; padChar; padChar; padChar]
  | [s0; s1; s2] =>
      let b4 := Z.land (u8 (Z.shiftl s2 1)) 31 in
      let b3 := Z.lor (Z.land (Z.shiftr s2 4) 31) (Z.land (u8 (Z.shiftl s1 4)) 31) in
      let b2 := Z.land (Z.shiftr s1 1) 31 in
      let b1 := Z.lor (Z.land (Z.shiftr s1 6) 31) (Z.land (u8 (Z.shiftl s0 2)) 31) in
      let b0 := Z.shiftr s0 3 in
      str [enc32 b0; enc32 b1; enc32 b2; enc32 b3; enc32 b4; padChar; padChar; padChar]
  | [s0; s1; s2; s3] =>
      let b6 := Z.land (u8 (Z.shiftl s3 3)) 31 in
      let b5 := Z.land (Z.shiftr s3 2) 31 in
      let b4 := Z.lor (Z.shiftr s3 7) (Z.land (u8 (Z.shiftl s2 1)) 31) in
      let b3 := Z.lor (Z.land (Z.shiftr s2 4) 31) (Z.land (u8 (Z.shiftl s1 4)) 31) in
      let b2 := Z.land (Z.shiftr s1 1) 31 in
      let b1 := Z.lor (Z.land (Z.shiftr s1 6) 31) (Z.land (u8 (Z.shiftl s0 2)) 31) in
      let b0 := Z.shiftr s0 3 in
      str [enc32 b0; enc32 b1; enc32 b2; enc32 b3; enc32 b4; enc32 b5; enc32 b6; padChar]
  | s0 :: s1 :: s2 :: s3 :: s4 :: rest =>
      let b7 := Z.land s4 31 in
      let b6 := Z.lor (Z.shiftr s4 5) (Z.land (u8 (Z.shiftl s3 3)) 31) in
      let b5 := Z.land (Z.shiftr s3 2) 31 in
      let b4 := Z.lor (Z.shiftr s3 7) (Z.land (u8 (Z.shiftl s2 1)) 31) in
      let b3 := Z.lor (Z.land (Z.shiftr s2 4) 31) (Z.land (u8 (Z.shiftl s1 4)) 31) in
      let b2 := Z.land (Z.shiftr s1 1) 31 in
      let b1 := Z.lor (Z.land (Z.shiftr s1 6) 31) (Z.land (u8 (Z.shiftl s0 2)) 31) in
      let b0 := Z.shiftr s0 3 in
      str [enc32 b0; enc32 b1; enc32 b2; enc32 b3; enc32 b4; enc32 b5; enc32 b6; enc32 b7]
      ++ EncodeToString rest
  end.

End GoStd.

Import GoStd.

(* ------------------------------------------------------------------ *)
(** ** Errors *)

(** The error values the store can return: those of bbolt, the store's
    own ("invalid session bucket", "the value to store is too big",
    "store secret key is absent"), and [ErrExternal] for the errors of
    the cookie codecs and of the payload serializer.  [Wrap] is
    [fmt.Errorf("<prefix>: %w", err)]. *)
Inductive error : Type :=
| ErrDatabaseNotOpen
| ErrBucketNameRequired
| ErrIncompatibleValue
| ErrKeyRequired
| ErrKeyTooLarge
| ErrValueTooLarge
| ErrInvalidSessionBucket (root id : string)
| ErrInvalidSessionBucketForReap (root id : string)
| ErrTooBig
| ErrSecretKeyAbsent
| ErrExternal (msg : string)
| Wrap (prefix : string) (e : error).

(* ------------------------------------------------------------------ *)
(** ** bbolt: buckets, transactions *)

Module Bolt.

(** A bucket maps keys to values or to nested buckets and keeps its keys
    in byte order; it is an association list in that order. *)
#[warnings="-register-all"]
Inductive node : Type :=
| Leaf (v : string)
| Nested (b : list (string * node)).

Definition Bucket : Type := list (string * node).

Definition MaxKeySize : Z := 32768.
Definition MaxValueSize : Z := 2 ^ 31 - 2.

Definition len (s : string) : Z := Z.of_nat (String.length s).

(** The cursor's [seek(key)] followed by [bytes.Equal(key, k)]. *)
Fixpoint seek (b : Bucket) (key : string) : option node :=
  match b with
  | [] => None
  | (k, n) :: rest => if String.eqb key k then Some n else seek rest key
  end.

(** [node.put]: insert at the key's place, or replace. *)
Fixpoint put (b : Bucket) (key : string) (n : node) : Bucket :=
  match b with
  | [] => [(key, n)]
  | (k, m) :: rest =>
      match String.compare key k with
      | Lt => (key, n) :: b
      | Eq => (key, n) :: rest
      | Gt => (k, m) :: put rest key n
      end
  end.

(** [node.del]. *)
Fixpoint del (b : Bucket) (key : string) : Bucket :=
  match b with
  | [] => []
  | (k, m) :: rest => if String.eqb key k then rest else (k, m) :: del rest key
  end.

(** The keys of a bucket are in increasing byte order. *)
Definition key_lt (x y : string * node) : Prop :=
  String.compare (fst x) (fst y) = Lt.

Definition ordered (b : Bucket) : Prop := Sorted key_lt b.

(** [b.Bucket(name)]: nil unless [name] is a nested bucket. *)
Definition Bucket_Bucket (b : Bucket) (name : string) : option Bucket :=
  match seek b name with
  | Some (Nested c) => Some c
  | _ => None
  end.

(** [b.Get(key)]: nil if the key is absent or is a nested bucket. *)
Definition Bucket_Get (b : Bucket) (key : string) : option string :=
  match seek b key with
  | Some (Leaf v) => Some v
  | _ => None
  end.

(** [b.Put(key, value)] in a writable transaction: the checks on the
    sizes, [ErrIncompatibleValue] for a key that holds a nested bucket,
    else the value is inserted or replaced. *)
Definition Bucket_Put (b : Bucket) (key value : string) : Bucket + error :=
  if len key =? 0 then inr ErrKeyRequired
  else if len key >? MaxKeySize then inr ErrKeyTooLarge
  else if len value >? MaxValueSize then inr ErrValueTooLarge
  else match seek b key with
       | Some (Nested _) => inr ErrIncompatibleValue
       | _ => inl (put b key (Leaf value))
       end.

(** [b.Delete(key)] in a writable transaction (bbolt v1.3.7, bucket.go:
    after the cursor's seek, [if !bytes.Equal(key, k) { return nil }],
    [if (flags & bucketLeafFlag) != 0 { return ErrIncompatibleValue }],
    then [c.node().del(key)]).  Nothing is done for an absent key, and a
    key that holds a nested bucket is refused: nested buckets are
    removed with [DeleteBucket], which the store does not call. *)
Definition Bucket_Delete (b : Bucket) (key : string) : Bucket + error :=
  match seek b key with
  | None => inl b
  | Some (Nested _) => inr ErrIncompatibleValue
  | Some (Leaf _) => inl (del b key)
  end.

(** [b.CreateBucketIfNotExists(key)]: the parent after the call and the
    child bucket.  An empty name is [ErrBucketNameRequired], a key that
    holds a plain value is [ErrIncompatibleValue]. *)
Definition Bucket_CreateBucketIfNotExists (b : Bucket) (key : string)
  : (Bucket * Bucket) + error :=
  if len key =? 0 then inr ErrBucketNameRequired
  else match seek b key with
       | Some (Nested c) => inl (b, c)
       | Some (Leaf _) => inr ErrIncompatibleValue
       | None => inl (put b key (Nested []), [])
       end.

(** A child bucket is a handle into the transaction: a write to it is a
    write, in place, to the entry of its parent that holds it. *)
Fixpoint store_child (parent : Bucket) (name : string) (child : Bucket) : Bucket :=
  match parent with
  | [] => []
  | (k, m) :: rest =>
      if String.eqb name k then (k, Nested child) :: rest
      else (k, m) :: store_child rest name child
  end.

(** [b.ForEach(fn)]: [fn] is called for every key in order, with a nil
    value for a nested bucket; the first error stops the iteration and is
    returned.  [St] is the state of the variables that [fn] captures. *)
Fixpoint Bucket_ForEach (St : Type) (entries : Bucket)
    (fn : string -> option string -> St -> St * option error) (st : St)
  : St * option error :=
  match entries with
  | [] => (st, None)
  | (k, n) :: rest =>
      let v := match n with Leaf v => Some v | Nested _ => None end in
      match fn k v st with
      | (st', Some e) => (st', Some e)
      | (st', None) => Bucket_ForEach rest fn st'
      end
  end.

(** A transaction sees the top-level buckets of the file. *)
Definition Tx : Type := Bucket.

Definition Tx_Bucket (tx : Tx) (name : string) : option Bucket :=
  Bucket_Bucket tx name.

(** [tx.CreateBucketIfNotExists(name)]. *)
Definition Tx_CreateBucketIfNotExists (tx : Tx) (name : string) : Tx + error :=
  match Bucket_CreateBucketIfNotExists tx name with
  | inl (tx', _) => inl tx'
  | inr e => inr e
  end.

(** The database: whether it is open, and its committed content. *)
Record DB : Type := mkDB { db_open : bool; db_tx : Tx }.

(** [db.View(fn)].  [fn] returns the final state of its captured
    variables and its error; [init] is their state if [fn] never runs. *)
Definition DB_View (A : Type) (db : DB) (init : A)
    (fn : Tx -> go (A * option error)) : go (A * option error) :=
  if db_open db then fn (db_tx db)
  else Return (init, Some ErrDatabaseNotOpen).

(** [db.Update(fn)]: commit if [fn] returns nil, roll back otherwise. *)
Definition DB_Update (db : DB) (fn : Tx -> go (Tx * option error))
  : go (DB * option error) :=
  if db_open db then
    match fn (db_tx db) with
    | Return (tx', None) => Return (mkDB true tx', None)
    | Return (_, Some e) => Return (db, Some e)
    | Panic => Panic
    end
  else Return (db, Some ErrDatabaseNotOpen).

(** [db.Close()]. *)
Definition DB_Close (db : DB) : DB := mkDB false (db_tx db).

End Bolt.

Import Bolt.

(* ------------------------------------------------------------------ *)
(** ** gorilla/sessions, gorilla/securecookie and net/http *)

Module Sessions.

(** [sessions.Options] (the cookie attributes of a session). *)
Record Options : Type := mkOptions {
  Path : string;
  Domain : string;
  MaxAge : Z;
  Secure : bool;
  HttpOnly : bool
}.

(** [sessions.Session].  [Values] is the map of application values, of
    which the store only knows what the serializer makes of it;
    [sOptions] is the record that the pointer [Options] refers to ([New]
    always sets it). *)
Record Session : Type := mkSession {
  ID : string;
  Values : list (string * string);
  sOptions : Options;
  IsNew : bool;
  sName : string
}.

Definition set_ID (x : Session) (id : string) : Session :=
  mkSession id (Values x) (sOptions x) (IsNew x) (sName x).

Definition set_IsNew (x : Session) (b : bool) : Session :=
  mkSession (ID x) (Values x) (sOptions x) b (sName x).

Definition set_Options (x : Session) (o : Options) : Session :=
  mkSession (ID x) (Values x) o (IsNew x) (sName x).

(** [sessions.NewSession(store, name)]. *)
Definition NewSession (name : string) : Session :=
  mkSession "" [] (mkOptions "" "" 0 false false) false name.

(** [http.Cookie], the fields that [sessions.NewCookie] fills from the
    name, the value and the options ([Expires], which gorilla derives
    from [MaxAge] and the clock, is left out). *)
Record Cookie : Type := mkCookie {
  cName : string;
  cValue : string;
  cPath : string;
  cDomain : string;
  cMaxAge : Z;
  cSecure : bool;
  cHttpOnly : bool
}.

Definition NewCookie (name value : string) (o : Options) : Cookie :=
  mkCookie name value (Path o) (Domain o) (MaxAge o) (Secure o) (HttpOnly o).

(** A request, as the cookies of its [Cookie] headers in order. *)
Definition Request : Type := list (string * string).

(** [r.Cookie(name)]: the first cookie of that name, else [ErrNoCookie]
    ([None]); an empty name finds nothing. *)
Fixpoint find_cookie (r : Request) (name : string) : option string :=
  match r with
  | [] => None
  | (n, v) :: rest => if String.eqb n name then Some v else find_cookie rest name
  end.

Definition Request_Cookie (r : Request) (name : string) : option string :=
  if String.eqb name "" then None else find_cookie r name.

(** [httpguts.IsTokenRune] on a byte: the [tchar] of RFC 7230, letters,
    digits and fifteen marks. *)
Definition isTokenByte (c : ascii) : bool :=
  let n := Z.of_nat (nat_of_ascii c) in
  ((48 <=? n) && (n <=? 57)) || ((65 <=? n) && (n <=? 90))
  || ((97 <=? n) && (n <=? 122)) || in_cutset c "!#$%&'*+-.^_`|~".

Fixpoint all_bytes (p : ascii -> bool) (s : string) : bool :=
  match s with
  | EmptyString => true
  | String c rest => p c && all_bytes p rest
  end.

(** [isCookieNameValid]: the name is not empty and [strings.IndexFunc]
    finds no rune in it that is not a token rune; a byte beyond ASCII
    decodes to a rune that is none. *)
Definition isCookieNameValid (raw : string) : bool :=
  negb (String.eqb raw "") && all_bytes isTokenByte raw.

(** [validCookieValueByte]: the bytes that the writing of a cookie keeps
    in its value and that the reading of a [Cookie] header accepts. *)
Definition validCookieValueByte (c : ascii) : bool :=
  let n := Z.of_nat (nat_of_ascii c) in
  (32 <=? n) && (n <? 127) && negb (n =? 34) && negb (n =? 59) && negb (n =? 92).

(** A response writer, as the cookies for which [http.SetCookie] added
    a [Set-Cookie] header, each as the [Cookie] it was given; the text
    of the header is not modelled. *)
Definition ResponseWriter : Type := list Cookie.

(** [http.SetCookie]: [cookie.String()] is empty for a name that is not
    valid, and then no header is added. *)
Definition SetCookie (w : ResponseWriter) (c : Cookie) : ResponseWriter :=
  if isCookieNameValid (cName c) then (w ++ [c])%list else w.

(** [securecookie.EncodeMulti(name, value, codecs...)] and
    [securecookie.DecodeMulti(name, value, &dst, codecs...)] for a fixed
    list of codecs.  [DecodeMulti] gets the current content of [dst] and
    returns its content after the call. *)
Record Codecs : Type := mkCodecs {
  EncodeMulti : string -> string -> string + error;
  DecodeMulti : string -> string -> string -> string * option error
}.

End Sessions.

Import Sessions.

(* ------------------------------------------------------------------ *)
(** ** The store *)

Definition keyValues : string := "values".
Definition keyExpiredAt : string := "expired_at".

(** The interface [SessionSerializer].  [Deserialize] writes into the
    session it is given. *)
Record SessionSerializer : Type := mkSerializer {
  Serialize : Session -> string + error;
  Deserialize : string -> Session -> Session * option error
}.

(** The store options after [setOptions], which fills in the defaults:
    [BucketName] and [Serializer] are set.  [KeyPairs] is nil or a list
    of keys. *)
Record Options : Type := mkStoreOptions {
  KeyPairs : option (list string);
  KeyPrefix : string;
  BucketName : string;
  SessionExpire : Z;
  Serializer : SessionSerializer;
  MaxLength : Z;
  ReapCheckInterval : Z
}.

(** [BoltStore], without its database, which is threaded as a state. *)
Record BoltStore : Type := mkBoltStore {
  bs_Codecs : Codecs;
  bs_Options : Sessions.Options;
  bs_options : Options
}.

(** [NewStoreWithDB] on options that went through [setOptions];
    [CodecsFromPairs] is [securecookie.CodecsFromPairs].  The start of
    the reaper ([go bs.worker(ctx)]) is not part of the result. *)
Definition NewStoreWithDB (CodecsFromPairs : list string -> Codecs)
    (db : DB) (opts : Options) : go (DB * option BoltStore * option error) :=
  match KeyPairs opts with
  | None => Return (db, None, Some ErrSecretKeyAbsent)
  | Some pairs =>
      go_bind
        (DB_Update db (fun tx =>
           match Tx_CreateBucketIfNotExists tx (BucketName opts) with
           | inr e => Return (tx, Some e)
           | inl tx' => Return (tx', None)
           end))
        (fun r =>
           match r with
           | (db', Some e) =>
               Return (DB_Close db', None,
                       Some (Wrap "create sessions buckets error" e))
           | (db', None) =>
               Return (db',
                       Some (mkBoltStore (CodecsFromPairs pairs)
                               (mkOptions "/" ""
                                  (Z.quot (SessionExpire opts) 1000000000) false false)
                               opts),
                       None)
           end)
  end.

Section Store.

Variable s : BoltStore.

Let root_name : string := BucketName (bs_options s).

(** [load]: the pair [(exists, err)] and the session after the call.
    [tx.Bucket(...)] of a root bucket that is missing is nil, and the
    call of [Bucket] on it a nil dereference. *)
Definition load (db : DB) (session : Session) : go (Session * bool * option error) :=
  go_bind
    (DB_View db (session, false) (fun tx =>
       match Tx_Bucket tx root_name with
       | None => Panic
       | Some root =>
           match Bucket_Bucket root (ID session) with
           | None =>
               Return ((session, false),
                       Some (ErrInvalidSessionBucket root_name (ID session)))
           | Some bucket =>
               match Bucket_Get bucket keyValues with
               | None => Return ((session, false), None)
               | Some data =>
                   match Deserialize (Serializer (bs_options s)) data session with
                   | (session', Some e) => Return ((session', false), Some e)
                   | (session', None) => Return ((session', true), None)
                   end
               end
           end
       end))
    (fun r => let '((session', exists_), err) := r in Return (session', exists_, err)).

Definition is_nil (e : option error) : bool :=
  match e with None => true | Some _ => false end.

(** [New]. *)
Definition New (db : DB) (r : Request) (name : string) : go (Session * option error) :=
  let session := NewSession name in
  let session := set_Options session (bs_Options s) in
  let session := set_IsNew session true in
  match Request_Cookie r name with
  | Some value =>
      let '(id, err) := DecodeMulti (bs_Codecs s) name value (ID session) in
      let session := set_ID session id in
      match err with
      | None =>
          go_bind (load db session) (fun r =>
            let '(session', ok, err') := r in
            Return (set_IsNew session' (negb (is_nil err' && ok)), err'))
      | Some _ => Return (session, err)
      end
  | None => Return (session, None)
  end.

(** [delete]: [Delete] is called on the session's bucket, with the
    session identifier as the key. *)
Definition delete (db : DB) (session : Session) : go (DB * option error) :=
  DB_Update db (fun tx =>
    match Tx_Bucket tx root_name with
    | None => Panic
    | Some root =>
        match Bucket_Bucket root (ID session) with
        | None => Return (tx, Some (ErrInvalidSessionBucket root_name (ID session)))
        | Some bucket =>
            match Bucket_Delete bucket (ID session) with
            | inr e => Return (tx, Some e)
            | inl bucket' =>
                Return (store_child tx root_name
                          (store_child root (ID session) bucket'), None)
            end
        end
    end).

(** [save]; [now] is the reading of [time.Now()]. *)
Definition save (now : Time) (db : DB) (session : Session) : go (DB * option error) :=
  match Serialize (Serializer (bs_options s)) session with
  | inr e => Return (db, Some (Wrap "serialize session error" e))
  | inl b =>
      if negb (MaxLength (bs_options s) =? 0) && (len b >? MaxLength (bs_options s))
      then Return (db, Some ErrTooBig)
      else
        let expiredAt :=
          FormatInt (Time_Unix (Time_Add now (SessionExpire (bs_options s)))) in
        DB_Update db (fun tx =>
          match Tx_Bucket tx root_name with
          | None => Panic
          | Some root0 =>
              match Bucket_CreateBucketIfNotExists root0 (ID session) with
              | inr e => Return (tx, Some (Wrap "create session bucket error" e))
              | inl (root1, root) =>
                  match Bucket_Put root keyValues b with
                  | inr e => Return (tx, Some (Wrap "put session value to store error" e))
                  | inl root' =>
                      match Bucket_Put root' keyExpiredAt expiredAt with
                      | inr e =>
                          Return (tx, Some (Wrap "put session expireAt to store error" e))
                      | inl root'' =>
                          Return (store_child tx root_name
                                    (store_child root1 (ID session) root''), None)
                      end
                  end
              end
          end)
  end.

(** The identifier that [Save] builds from the bytes that
    [securecookie.GenerateRandomKey(32)] returned. *)
Definition newSessionID (key : list Z) : string :=
  TrimRight (EncodeToString key) "=".

(** [Save]; [key] is the result of [securecookie.GenerateRandomKey(32)]
    (32 bytes, or nil when the system random source fails), read only
    when the session has no identifier. *)
Definition Save (now : Time) (key : list Z) (db : DB) (w : ResponseWriter)
    (session : Session) : go (DB * ResponseWriter * Session * option error) :=
  if MaxAge (sOptions session) <=? 0 then
    go_bind (delete db session) (fun r =>
      match r with
      | (db', Some e) =>
          Return (db', w, session, Some (Wrap "delete session from store error" e))
      | (db', None) =>
          Return (db', SetCookie w (NewCookie (sName session) "" (sOptions session)),
                  session, None)
      end)
  else
    let session :=
      if String.eqb (ID session) "" then set_ID session (newSessionID key)
      else session in
    go_bind (save now db session) (fun r =>
      match r with
      | (db', Some e) =>
          Return (db', w, session, Some (Wrap "save session to store error" e))
      | (db', None) =>
          match EncodeMulti (bs_Codecs s) (sName session) (ID session) with
          | inr e => Return (db', w, session, Some (Wrap "encode cookie error" e))
          | inl encoded =>
              Return (db',
                      SetCookie w (NewCookie (sName session) encoded (sOptions session)),
                      session, None)
          end
      end).

End Store.

(** [Close]: [s.db.Close()].  The errors of the file system when the
    file is released are not modelled. *)
Definition Close (db : DB) : DB * option error := (DB_Close db, None).

(** The struct [Options] as the caller of [NewStore] fills it:
    [BucketName] and [Serializer] may be nil. *)
Record UserOptions : Type := mkUserOptions {
  uKeyPairs : option (list string);
  uKeyPrefix : string;
  uBucketName : option string;
  uSessionExpire : Z;
  uSerializer : option SessionSerializer;
  uMaxLength : Z;
  uReapCheckInterval : Z
}.

(** [setOptions]; [gob] is [GobSerializer{}], the default serializer. *)
Definition setOptions (gob : SessionSerializer) (o : UserOptions) : Options :=
  mkStoreOptions
    (uKeyPairs o)
    (if String.eqb (uKeyPrefix o) "" then "session_" else uKeyPrefix o)
    (match uBucketName o with None => "sessions" | Some n => n end)
    (if uSessionExpire o =? 0 then 3600000000000 * 24 else uSessionExpire o)
    (match uSerializer o with None => gob | Some sz => sz end)
    (uMaxLength o)
    (if uReapCheckInterval o =? 0 then 60000000000 else uReapCheckInterval o).

(** [NewStoreWithDB] from the options of the caller. *)
Definition NewStoreWithDB_user (gob : SessionSerializer)
    (CodecsFromPairs : list string -> Codecs) (db : DB) (o : UserOptions)
  : go (DB * option BoltStore * option error) :=
  NewStoreWithDB CodecsFromPairs db (setOptions gob o).

(** [NewStore]; [opened] is what [bolt.Open(fn, 0600, ...)] returned. *)
Definition NewStore (gob : SessionSerializer)
    (CodecsFromPairs : list string -> Codecs) (opened : DB + error) (o : UserOptions)
  : go (option DB * option BoltStore * option error) :=
  match opened with
  | inr e => Return (None, None, Some (Wrap "open bolt store error" e))
  | inl db =>
      go_bind (NewStoreWithDB_user gob CodecsFromPairs db o) (fun r =>
        let '(db', st, err) := r in Return (Some db', st, err))
  end.

(* ------------------------------------------------------------------ *)
(** ** The reaper *)

(** What [log.Printf] wrote: the read pass's "obtain expired sessions
    error" or the write pass's "remove expired sessions error". *)
Inductive logline : Type :=
| LogObtain (e : error)
| LogRemove (e : error).

(** The classification of one session bucket in the read pass, [now]
    being the reading of [time.Now()] for that bucket. *)
Definition isExpired (sessionBucket : Bucket) (now : Time) : bool :=
  let ev := Bucket_Get sessionBucket keyExpiredAt in
  let isExpired0 := match ev with None => true | Some _ => false end in
  match ParseInt (match ev with Some v => v | None => "" end) with
  | inr _ => true
  | inl expiredAt => Time_Before (time_Unix expiredAt) now
  end.

Section Reaper.

Variable s : BoltStore.

Let root_name : string := BucketName (bs_options s).

(** The callback of [bucket.ForEach] with its deferred function.  The
    captured state is [isExpired] and [expiredSessionKeys]; [now_at k] is
    the reading of [time.Now()] while [k] is visited. *)
Definition visit (bucket : Bucket) (now_at : string -> Time)
    (k : string) (v : option string) (st : bool * list string)
  : (bool * list string) * option error :=
  let keys := snd st in
  match Bucket_Bucket bucket k with
  | None => ((false, keys), Some (ErrInvalidSessionBucketForReap root_name k))
  | Some sessionBucket =>
      let e := isExpired sessionBucket (now_at k) in
      ((e, if e then (keys ++ [k])%list else keys), None)
  end.

(** The read transaction of a tick: the keys collected and the error of
    [db.View].  The result of [bucket.ForEach] is dropped. *)
Definition read_pass (now_at : string -> Time) (db : DB)
  : go (list string * option error) :=
  DB_View db [] (fun tx =>
    match Tx_Bucket tx root_name with
    | None => Return ([], None)
    | Some bucket =>
        let '((_, keys), _) :=
          Bucket_ForEach bucket (visit bucket now_at) (false, []) in
        Return (keys, None)
    end).

(** The loop over [expiredSessionKeys] in the write transaction. *)
Fixpoint delete_keys (b : Bucket) (keys : list string) : Bucket + error :=
  match keys with
  | [] => inl b
  | key :: rest =>
      match Bucket_Delete b key with
      | inr e => inr e
      | inl b' => delete_keys b' rest
      end
  end.

(** The write transaction of a tick. *)
Definition write_pass (db : DB) (keys : list string) : go (DB * option error) :=
  DB_Update db (fun tx =>
    match Tx_Bucket tx root_name with
    | None => Return (tx, None)
    | Some b =>
        match delete_keys b keys with
        | inr e => Return (tx, Some e)
        | inl b' => Return (store_child tx root_name b', None)
        end
    end).

(** One round of the [case <-ticker.C] branch: the database after it,
    the lines logged, and whether the write transaction was started. *)
Definition tick (now_at : string -> Time) (db : DB)
  : go (DB * list logline * bool) :=
  go_bind (read_pass now_at db) (fun r =>
    let '(expiredSessionKeys, err) := r in
    let log1 := match err with Some e => [LogObtain e] | None => [] end in
    if (0 <? Z.of_nat (List.length expiredSessionKeys)) then
      go_bind (write_pass db expiredSessionKeys) (fun r' =>
        let '(db', err') := r' in
        let log2 := match err' with Some e => [LogRemove e] | None => [] end in
        Return (db', (log1 ++ log2)%list, true))
    else Return (db, log1, false)).

(** What [select] receives. *)
Inductive event : Type :=
| CtxDone
| TickerC (now_at : string -> Time).

(** [worker] on a sequence of events: the database and the log when the
    events are used up or the function has returned, and whether it has
    returned. *)
Fixpoint worker (events : list event) (db : DB) : go (DB * list logline * bool) :=
  match events with
  | [] => Return (db, [], false)
  | CtxDone :: _ => Return (db, [], true)
  | TickerC now_at :: rest =>
      go_bind (tick now_at db) (fun r =>
        let '(db', log, _) := r in
        go_bind (worker rest db') (fun r' =>
          let '(db'', log', returned) := r' in
          Return (db'', (log ++ log')%list, returned)))
  end.

End Reaper.

(** [time.NewTicker(d)]: it panics unless [d] is positive. *)
Definition NewTicker (d : Z) : go unit :=
  if d <=? 0 then Panic else Return tt.

(** [worker] from its first statement: the ticker is made from
    [ReapCheckInterval], then the loop receives the events. *)
Definition worker_from_start (s : BoltStore) (events : list event) (db : DB)
  : go (DB * list logline * bool) :=
  go_bind (NewTicker (ReapCheckInterval (bs_options s))) (fun _ => worker s events db).

(* ------------------------------------------------------------------ *)
(** ** Sample stores for the examples *)

Module Sample.

(** A serializer that stores the first value of the session and reads it
    back under the key ["k"]; it fails on the payload ["!"]. *)
Definition serializer : SessionSerializer :=
  mkSerializer
    (fun x => match Values x with
              | (_, v) :: _ => inl v
              | [] => inl "-"
              end)
    (fun data x =>
       if String.eqb data "!" then (x, Some (ErrExternal "bad payload"))
       else (mkSession (ID x) [("k", data)] (sOptions x) (IsNew x) (sName x), None)).

(** Codecs that seal an identifier by prefixing the name and a colon. *)
Definition codecs : Codecs :=
  mkCodecs
    (fun name value => inl (name ++ ":" ++ value))
    (fun name value dst =>
       if String.prefix (name ++ ":") value
       then (String.substring (String.length name + 1)
               (String.length value - (String.length name + 1)) value, None)
       else (dst, Some (ErrExternal "securecookie: the value is not valid"))).

Definition options (maxLength : Z) : Options :=
  mkStoreOptions (Some ["secret-key"]) "session_" "sessions" 3600000000000
    serializer maxLength 60000000000.

Definition store (maxLength : Z) : BoltStore :=
  mkBoltStore codecs (mkOptions "/" "" 3600 false false) (options maxLength).

(** A record as [save] writes it. *)
Definition record (payload expiredAt : string) : node :=
  Nested [("expired_at", Leaf expiredAt); ("values", Leaf payload)].

Definition db1 : DB :=
  mkDB true [("sessions", Nested [("S1", record "foo" "100")])].

Definition session1 (maxAge : Z) : Session :=
  mkSession "S1" [("k", "foo")] (mkOptions "/" "" maxAge false false) false "sid".

(** A store whose root bucket holds an expired record and, after it, a
    plain key. *)
Definition db_with_plain_key : DB :=
  mkDB true
    [("sessions", Nested [("S1", record "foo" "100"); ("zz", Leaf "x")])].

(** A store whose record [S2] has no [values] entry and whose record
    [S3] has a payload that the serializer rejects. *)
Definition db2 : DB :=
  mkDB true
    [("sessions",
      Nested [("S1", record "foo" "100");
              ("S2", Nested [("expired_at", Leaf "100")]);
              ("S3", record "!" "100")])].

Definition session_of (id : string) : Session :=
  mkSession id [] (mkOptions "/" "" 3600 false false) true "sid".

End Sample.

(* ------------------------------------------------------------------ *)
(** ** Notions used in the statements *)

(** The Unix time of an instant in nanoseconds, as an unbounded integer. *)
Definition unix_nanos (t : Time) : Z :=
  (t_sec t - unixToInternal) * 10 ^ 9 + t_nsec t.

(** The entries of a bucket before its first plain key: what a scan
    visits before its callback fails. *)
Fixpoint before_plain_key (b : Bucket) : Bucket :=
  match b with
  | (k, Nested c) :: rest => (k, Nested c) :: before_plain_key rest
  | _ => []
  end.

(** The keys of the nested buckets of [b] that are expired, in order. *)
Fixpoint expired_keys (now_at : string -> Time) (b : Bucket) : list string :=
  match b with
  | [] => []
  | (k, Nested c) :: rest =>
      if isExpired c (now_at k) then k :: expired_keys now_at rest
      else expired_keys now_at rest
  | (_, Leaf _) :: rest => expired_keys now_at rest
  end.

Definition is_done (e : event) : bool :=
  match e with CtxDone => true | TickerC _ => false end.

(** The databases that a program reaches from [db0] through the store:
    by [Save], by the rounds of the reaper and by [Close] ([New] and
    [load] only read). *)
Inductive reachable (s : BoltStore) (db0 : DB) : DB -> Prop :=
| reach_start : reachable s db0 db0
| reach_Save (now : Time) (key : list Z) (db : DB) (w : ResponseWriter)
    (session : Session) (db' : DB) (w' : ResponseWriter) (session' : Session)
    (err : option error) :
    reachable s db0 db ->
    Save s now key db w session = Return (db', w', session', err) ->
    reachable s db0 db'
| reach_tick (now_at : string -> Time) (db db' : DB) (log : list logline)
    (started : bool) :
    reachable s db0 db ->
    tick s now_at db = Return (db', log, started) ->
    reachable s db0 db'
| reach_Close (db : DB) :
    reachable s db0 db -> reachable s db0 (fst (Close db)).

(** Every byte of a string satisfies [P]. *)
Fixpoint all_chars (P : ascii -> Prop) (s : string) : Prop :=
  match s with
  | EmptyString => True
  | String c rest => P c /\ all_chars P rest
  end.

(** The bytes of the base-32 alphabet: [A]-[Z] and [2]-[7]. *)
Definition base32_char (c : ascii) : Prop :=
  In c (list_ascii_of_string encodeStd).

(** Base 32 without padding, as RFC 4648 words it, to compare with the
    identifier that the code builds: the bytes are read as one string
    of bits, most significant bit first; every five bits, the last
    group filled up with zero bits, are one number below 32; every
    number is the letter at its place in [A]-[Z], [2]-[7]. *)
Definition byte_bits (b : Z) : list bool :=
  [Z.testbit b 7; Z.testbit b 6; Z.testbit b 5; Z.testbit b 4;
   Z.testbit b 3; Z.testbit b 2; Z.testbit b 1; Z.testbit b 0].

Definition key_bits (key : list Z) : list bool := flat_map byte_bits key.

Definition quintet_value (b4 b3 b2 b1 b0 : bool) : Z :=
  16 * Z.b2z b4 + 8 * Z.b2z b3 + 4 * Z.b2z b2 + 2 * Z.b2z b1 + Z.b2z b0.

Fixpoint quintets_of_bits (bits : list bool) : list Z :=
  match bits with
  | [] => []
  | [b4] => [quintet_value b4 false false false false]
  | [b4; b3] => [quintet_value b4 b3 false false false]
  | [b4; b3; b2] => [quintet_value b4 b3 b2 false false]
  | [b4; b3; b2; b1] => [quintet_value b4 b3 b2 b1 false]
  | b4 :: b3 :: b2 :: b1 :: b0 :: rest =>
      quintet_value b4 b3 b2 b1 b0 :: quintets_of_bits rest
  end.

Definition base32_letter (q : Z) : ascii :=
  nth (Z.to_nat q) (list_ascii_of_string "ABCDEFGHIJKLMNOPQRSTUVWXYZ234567") "A"%char.

Definition base32_unpadded (key : list Z) : string :=
  string_of_list_ascii (map base32_letter (quintets_of_bits (key_bits key))).

(** A prior record is recovered for a request: the cookie is there, the
    codecs open it, the record of the identifier holds a payload and the
    serializer reads it into the session. *)
Definition recovered (s : BoltStore) (db : DB) (r : Request) (name : string) : Prop :=
  exists value id root bucket data session',
    Request_Cookie r name = Some value
    /\ DecodeMulti (bs_Codecs s) name value "" = (id, None)
    /\ db_open db = true
    /\ Tx_Bucket (db_tx db) (BucketName (bs_options s)) = Some root
    /\ Bucket_Bucket root id = Some bucket
    /\ Bucket_Get bucket keyValues = Some data
    /\ Deserialize (Serializer (bs_options s)) data
         (mkSession id [] (bs_Options s) true name) = (session', None).

(* ------------------------------------------------------------------ *)
(** * Properties *)

Unset Implicit Arguments.

(** ** The model on concrete inputs *)

Example ParseInt_ex1 : ParseInt "1700000000" = inl 1700000000.
Proof. reflexivity. Qed.

Example ParseInt_ex2 : ParseInt "-12" = inl (-12).
Proof. reflexivity. Qed.

Example ParseInt_ex3 : ParseInt "" = inr ErrSyntax.
Proof. reflexivity. Qed.

Example ParseInt_ex4 : ParseInt "9223372036854775808" = inr ErrRange.
Proof. reflexivity. Qed.

Example ParseInt_ex5 : ParseInt "12x" = inr ErrSyntax.
Proof. reflexivity. Qed.

Example FormatInt_ex1 : FormatInt 1700086400 = "1700086400".
Proof. reflexivity. Qed.

Example FormatInt_ex2 : FormatInt (-7) = "-7".
Proof. reflexivity. Qed.

Example base32_ex1 :
  EncodeToString [102; 111; 111; 98; 97; 114] = "MZXW6YTBOI======".
Proof. reflexivity. Qed.

Example TrimRight_ex1 : TrimRight "MZXW6YTBOI======" "=" = "MZXW6YTBOI".
Proof. reflexivity. Qed.

Example Time_Add_ex1 :
  Time_Unix (Time_Add (clock 200 999999999) 1500000001) = 202.
Proof. reflexivity. Qed.

Example Time_Add_ex2 :
  Time_Unix (Time_Add (clock 200 5) (-1000000006)) = 198.
Proof. reflexivity. Qed.

(** ** Buckets *)

Section BucketFacts.

Lemma compare_refl (k : string) : String.compare k k = Eq.
Proof.
  pose proof (String.compare_antisym k k) as H.
  destruct (String.compare k k); simpl in H; congruence.
Qed.

Lemma compare_neq (k k' : string) :
  String.compare k k' <> Eq -> String.eqb k k' = false.
Proof.
  intros H. apply String.eqb_neq. intros ->. apply H, compare_refl.
Qed.

Lemma seek_put_same (b : Bucket) (k : string) (n : node) :
  seek (put b k n) k = Some n.
Proof.
  induction b as [|[k' m] rest IH]; simpl.
  - now rewrite String.eqb_refl.
  - destruct (String.compare k k') eqn:E; simpl.
    + now rewrite String.eqb_refl.
    + now rewrite String.eqb_refl.
    + rewrite compare_neq by congruence. exact IH.
Qed.

Lemma seek_put_other (b : Bucket) (k k' : string) (n : node) :
  k' <> k -> seek (put b k n) k' = seek b k'.
Proof.
  intros Hne. apply String.eqb_neq in Hne.
  induction b as [|[k0 m] rest IH]; simpl.
  - now rewrite Hne.
  - destruct (String.compare k k0) eqn:E; simpl.
    + apply String.compare_eq_iff in E. subst k0. now rewrite Hne.
    + now rewrite Hne.
    + now rewrite IH.
Qed.

Lemma store_child_same (b : Bucket) (k : string) (c : Bucket) :
  seek b k = Some (Nested c) -> store_child b k c = b.
Proof.
  induction b as [|[k' m] rest IH]; simpl; [reflexivity|].
  destruct (String.eqb k k') eqn:E.
  - intros H. now inversion H.
  - intros H. now rewrite IH.
Qed.

Lemma seek_store_child_same (b : Bucket) (k : string) (m : node) (c : Bucket) :
  seek b k = Some m -> seek (store_child b k c) k = Some (Nested c).
Proof.
  induction b as [|[k' m'] rest IH]; simpl; [discriminate|].
  destruct (String.eqb k k') eqn:E; simpl; rewrite E; auto.
Qed.

Lemma seek_store_child_other (b : Bucket) (k k' : string) (c : Bucket) :
  k' <> k -> seek (store_child b k c) k' = seek b k'.
Proof.
  intros Hne.
  induction b as [|[k0 m] rest IH]; simpl; [reflexivity|].
  destruct (String.eqb k k0) eqn:E; simpl.
  - apply String.eqb_eq in E. subst k0.
    apply String.eqb_neq in Hne. now rewrite Hne.
  - now rewrite IH.
Qed.

(** [put] and [store_child] keep the keys in order. *)
Lemma put_ordered (b : Bucket) (k : string) (n : node) :
  ordered b -> ordered (put b k n).
Proof.
  unfold ordered. intros H. induction H as [|[k' m] rest Hs IH Hd]; simpl.
  - repeat constructor.
  - destruct (String.compare k k') eqn:E.
    + apply String.compare_eq_iff in E. subst k'.
      constructor; [exact Hs|].
      destruct Hd; constructor. assumption.
    + constructor; [now constructor|]. constructor. exact E.
    + constructor; [exact IH|].
      assert (Hlt : String.compare k' k = Lt).
      { rewrite String.compare_antisym, E. reflexivity. }
      destruct Hd as [|[k2 m2] r2 Hd]; simpl.
      * constructor. exact Hlt.
      * destruct (String.compare k k2); constructor; assumption.
Qed.

Lemma store_child_ordered (b : Bucket) (k : string) (c : Bucket) :
  ordered b -> ordered (store_child b k c).
Proof.
  unfold ordered. intros H. induction H as [|[k' m] rest Hs IH Hd]; simpl.
  - constructor.
  - destruct (String.eqb k k').
    + constructor; [exact Hs|]. destruct Hd; constructor. assumption.
    + constructor; [exact IH|].
      destruct Hd as [|[k2 m2] r2 Hd]; simpl; [constructor|].
      destruct (String.eqb k k2); constructor; assumption.
Qed.

Lemma Bucket_Bucket_seek (b : Bucket) (k : string) (c : Bucket) :
  Bucket_Bucket b k = Some c -> seek b k = Some (Nested c).
Proof.
  unfold Bucket_Bucket. destruct (seek b k) as [[v|c']|]; congruence.
Qed.

Lemma Bucket_Delete_nested (b : Bucket) (k : string) (c : Bucket) :
  Bucket_Bucket b k = Some c -> Bucket_Delete b k = inr ErrIncompatibleValue.
Proof.
  intros H. apply Bucket_Bucket_seek in H. unfold Bucket_Delete. now rewrite H.
Qed.

Lemma Bucket_Delete_absent (b : Bucket) (k : string) :
  seek b k = None -> Bucket_Delete b k = inl b.
Proof. intros H. unfold Bucket_Delete. now rewrite H. Qed.

End BucketFacts.

(* ------------------------------------------------------------------ *)
(** ** Deleting a session *)

Section DeleteFacts.

Variable s : BoltStore.

(** [delete] calls [Delete] on the session's own bucket with the session
    identifier as key.  Unless the record holds an entry under that very
    name, nothing is removed and [delete] reports success. *)
Lemma delete_leaves_record (db : DB) (session : Session) (root bucket : Bucket) :
  db_open db = true ->
  Tx_Bucket (db_tx db) (BucketName (bs_options s)) = Some root ->
  Bucket_Bucket root (ID session) = Some bucket ->
  seek bucket (ID session) = None ->
  delete s db session = Return (db, None).
Proof.
  intros Hopen Hroot Hb Hk. unfold delete, DB_Update.
  rewrite Hopen, Hroot, Hb, (Bucket_Delete_absent _ _ Hk).
  rewrite (store_child_same _ _ _ (Bucket_Bucket_seek _ _ _ Hb)).
  unfold Tx_Bucket in Hroot.
  rewrite (store_child_same _ _ _ (Bucket_Bucket_seek _ _ _ Hroot)).
  destruct db as [o tx]; simpl in *; now subst o.
Qed.

(** An absent session bucket is reported as an error. *)
Lemma delete_absent_bucket (db : DB) (session : Session) (root : Bucket) :
  db_open db = true ->
  Tx_Bucket (db_tx db) (BucketName (bs_options s)) = Some root ->
  Bucket_Bucket root (ID session) = None ->
  delete s db session =
  Return (db, Some (ErrInvalidSessionBucket (BucketName (bs_options s)) (ID session))).
Proof.
  intros Hopen Hroot Hb. unfold delete, DB_Update.
  now rewrite Hopen, Hroot, Hb.
Qed.

(** [Save] with a non-positive [MaxAge] and an absent session bucket
    returns the wrapped error and sets no cookie. *)
Lemma Save_delete_absent_bucket (now : Time) (key : list Z) (db : DB)
    (w : ResponseWriter) (session : Session) (root : Bucket) :
  MaxAge (sOptions session) <= 0 ->
  db_open db = true ->
  Tx_Bucket (db_tx db) (BucketName (bs_options s)) = Some root ->
  Bucket_Bucket root (ID session) = None ->
  Save s now key db w session =
  Return (db, w, session,
          Some (Wrap "delete session from store error"
                  (ErrInvalidSessionBucket (BucketName (bs_options s)) (ID session)))).
Proof.
  intros Hage Hopen Hroot Hb. unfold Save.
  apply Z.leb_le in Hage. rewrite Hage.
  now rewrite (delete_absent_bucket _ _ _ Hopen Hroot Hb).
Qed.

(** [Save] with a non-positive [MaxAge] on a stored record: the clearing
    cookie is set and the database is what it was. *)
Lemma Save_delete_leaves_record (now : Time) (key : list Z) (db : DB)
    (w : ResponseWriter) (session : Session) (root bucket : Bucket) :
  MaxAge (sOptions session) <= 0 ->
  db_open db = true ->
  Tx_Bucket (db_tx db) (BucketName (bs_options s)) = Some root ->
  Bucket_Bucket root (ID session) = Some bucket ->
  seek bucket (ID session) = None ->
  Save s now key db w session =
  Return (db, SetCookie w (NewCookie (sName session) "" (sOptions session)),
          session, None).
Proof.
  intros Hage Hopen Hroot Hb Hk. unfold Save.
  apply Z.leb_le in Hage. rewrite Hage.
  now rewrite (delete_leaves_record _ _ _ _ Hopen Hroot Hb Hk).
Qed.

End DeleteFacts.

(** C1 (the code departs from the claim).  A session with [MaxAge = 0]
    whose record is stored is saved: [Save] returns nil and sets the
    clearing cookie (empty value, max-age 0), but the record of the
    session is still in the store, with both entries, and [New] with the
    old token still recovers it as a session that is not new. *)
Theorem C1_Save_delete_keeps_record :
  let s := Sample.store 0 in
  let session := Sample.session1 0 in
  Save s (clock 200 0) [] Sample.db1 [] session =
    Return (Sample.db1, [mkCookie "sid" "" "/" "" 0 false false], session, None)
  /\ (exists root,
        Tx_Bucket (db_tx Sample.db1) "sessions" = Some root
        /\ Bucket_Bucket root (ID session) =
           Some [("expired_at", Leaf "100"); ("values", Leaf "foo")])
  /\ (exists session',
        New s Sample.db1 [("sid", "sid:S1")] "sid" = Return (session', None)
        /\ IsNew session' = false).
Proof.
  cbv zeta. split; [reflexivity|]. split.
  - eexists. split; reflexivity.
  - eexists. split; reflexivity.
Qed.

(* ------------------------------------------------------------------ *)
(** ** The reaper *)

Section ReaperFacts.

Variable s : BoltStore.

(** Every key that the read pass collects names a nested bucket. *)
Lemma ForEach_visit_nested (bucket : Bucket) (now_at : string -> Time) :
  forall (entries : Bucket) (st : bool * list string),
    Forall (fun k => exists c, Bucket_Bucket bucket k = Some c) (snd st) ->
    Forall (fun k => exists c, Bucket_Bucket bucket k = Some c)
      (snd (fst (Bucket_ForEach entries (visit s bucket now_at) st))).
Proof.
  induction entries as [|[k n] rest IH]; intros st Hst; simpl; [exact Hst|].
  unfold visit at 1.
  destruct (Bucket_Bucket bucket k) as [sb|] eqn:Hb; simpl; [|exact Hst].
  apply IH. simpl.
  destruct (isExpired sb (now_at k)); [|exact Hst].
  apply Forall_app. split; [exact Hst|].
  constructor; [now exists sb|constructor].
Qed.

(** The write pass fails on its first key whenever that key names a
    nested bucket, and the transaction is rolled back. *)
Lemma delete_keys_nested (b : Bucket) (k : string) (keys : list string) :
  (exists c, Bucket_Bucket b k = Some c) ->
  delete_keys b (k :: keys) = inr ErrIncompatibleValue.
Proof.
  intros [c Hc]. simpl. now rewrite (Bucket_Delete_nested _ _ _ Hc).
Qed.

(** A tick never changes the database: the read pass collects only
    nested buckets, and [Delete] refuses each of them. *)
Lemma tick_db_unchanged (now_at : string -> Time) (db : DB) :
  exists log started, tick s now_at db = Return (db, log, started).
Proof.
  unfold tick, read_pass, DB_View.
  destruct (db_open db) eqn:Hopen; simpl; [|eauto].
  destruct (Tx_Bucket (db_tx db) (BucketName (bs_options s))) as [bucket|] eqn:Hroot;
    simpl; [|eauto].
  pose proof (ForEach_visit_nested bucket now_at bucket (false, []) (Forall_nil _)) as HF.
  destruct (Bucket_ForEach bucket (visit s bucket now_at) (false, []))
    as [[e keys] err]. simpl in HF. simpl.
  destruct keys as [|k keys]; simpl; [eauto|].
  inversion HF as [|? ? Hk _]; subst.
  unfold write_pass, DB_Update. rewrite Hopen, Hroot.
  rewrite (delete_keys_nested bucket k keys Hk). simpl. eauto.
Qed.

(** A failure of [db.View] is logged and, no key being collected, the
    write pass is not started. *)
Lemma tick_view_error (now_at : string -> Time) (db : DB) :
  db_open db = false ->
  tick s now_at db = Return (db, [LogObtain ErrDatabaseNotOpen], false).
Proof.
  intros Hopen. unfold tick, read_pass, DB_View. now rewrite Hopen.
Qed.

(** The loop goes on after a tick, whatever the tick logged: [worker]
    returns only on [CtxDone]. *)
Lemma worker_returns_only_on_done (events : list event) (db : DB) :
  (forall e, In e events -> e <> CtxDone) ->
  exists log, worker s events db = Return (db, log, false).
Proof.
  revert db. induction events as [|e rest IH]; intros db Hne; simpl; [eauto|].
  destruct e as [|now_at].
  - exfalso. apply (Hne CtxDone); [now left|reflexivity].
  - destruct (tick_db_unchanged now_at db) as (log & started & Ht).
    rewrite Ht. simpl.
    destruct (IH db) as [log' Hw]; [intros e He; apply Hne; now right|].
    rewrite Hw. simpl. eauto.
Qed.

End ReaperFacts.

(** C2 (the code departs from the claim).  The record [S1] expired at
    Unix second 100; a tick at second 200 classifies it as expired and
    starts the write pass, whose [Delete] is refused: the tick logs
    "remove expired sessions error" and the record is still stored. *)
Theorem C2_tick_keeps_expired_record :
  let s := Sample.store 0 in
  isExpired [("expired_at", Leaf "100"); ("values", Leaf "foo")] (clock 200 0) = true
  /\ read_pass s (fun _ => clock 200 0) Sample.db1 = Return (["S1"], None)
  /\ tick s (fun _ => clock 200 0) Sample.db1 =
     Return (Sample.db1, [LogRemove ErrIncompatibleValue], true)
  /\ (exists root,
        Tx_Bucket (db_tx Sample.db1) "sessions" = Some root
        /\ Bucket_Bucket root "S1" =
           Some [("expired_at", Leaf "100"); ("values", Leaf "foo")]).
Proof.
  cbv zeta. repeat split; try reflexivity.
  eexists. split; reflexivity.
Qed.

(** C8 (the code departs from the claim).  The scan of the read pass
    fails on the plain key [zz] with "invalid session bucket ... for
    reap"; [read_pass] drops that error, so the tick logs no "obtain
    expired sessions error" and still starts the write pass with the key
    collected before the failure. *)
Theorem C8_scan_failure_is_dropped :
  let s := Sample.store 0 in
  let now_at := fun _ : string => clock 200 0 in
  let root := [("S1", Sample.record "foo" "100"); ("zz", Leaf "x")] in
  Bucket_ForEach root (visit s root now_at) (false, []) =
    ((false, ["S1"]), Some (ErrInvalidSessionBucketForReap "sessions" "zz"))
  /\ read_pass s now_at Sample.db_with_plain_key = Return (["S1"], None)
  /\ tick s now_at Sample.db_with_plain_key =
     Return (Sample.db_with_plain_key, [LogRemove ErrIncompatibleValue], true).
Proof. cbv zeta. repeat split; reflexivity. Qed.

(* ------------------------------------------------------------------ *)
(** ** Loading a session *)

(** C5.  With the root bucket in place, [load] tells three cases apart:
    no bucket for the session identifier is an "invalid session bucket"
    error; a bucket without a [values] entry is (false, nil); a bucket
    with a [values] entry that the serializer reads is (true, nil). *)
Theorem C5_load_cases (s : BoltStore) (db : DB) (session : Session) (root : Bucket) :
  db_open db = true ->
  Tx_Bucket (db_tx db) (BucketName (bs_options s)) = Some root ->
  (Bucket_Bucket root (ID session) = None ->
   load s db session =
   Return (session, false,
           Some (ErrInvalidSessionBucket (BucketName (bs_options s)) (ID session))))
  /\ (forall bucket,
        Bucket_Bucket root (ID session) = Some bucket ->
        Bucket_Get bucket keyValues = None ->
        load s db session = Return (session, false, None))
  /\ (forall bucket data session',
        Bucket_Bucket root (ID session) = Some bucket ->
        Bucket_Get bucket keyValues = Some data ->
        Deserialize (Serializer (bs_options s)) data session = (session', None) ->
        load s db session = Return (session', true, None)).
Proof.
  intros Hopen Hroot. unfold load, DB_View. rewrite Hopen, Hroot.
  split; [|split].
  - intros Hb. now rewrite Hb.
  - intros bucket Hb Hg. now rewrite Hb, Hg.
  - intros bucket data session' Hb Hg Hd. now rewrite Hb, Hg, Hd.
Qed.

Lemma C5_load_cases_witness :
  load (Sample.store 0) Sample.db2 (Sample.session_of "S9") =
    Return (Sample.session_of "S9", false,
            Some (ErrInvalidSessionBucket "sessions" "S9"))
  /\ load (Sample.store 0) Sample.db2 (Sample.session_of "S2") =
     Return (Sample.session_of "S2", false, None)
  /\ load (Sample.store 0) Sample.db2 (Sample.session_of "S1") =
     Return (mkSession "S1" [("k", "foo")] (mkOptions "/" "" 3600 false false) true "sid",
             true, None).
Proof.
  split; [|split].
  - apply (C5_load_cases (Sample.store 0) Sample.db2 (Sample.session_of "S9")
             ([("S1", Sample.record "foo" "100");
                       ("S2", Nested [("expired_at", Leaf "100")]);
                       ("S3", Sample.record "!" "100")]));
      reflexivity.
  - eapply (C5_load_cases (Sample.store 0) Sample.db2 (Sample.session_of "S2")
              ([("S1", Sample.record "foo" "100");
                        ("S2", Nested [("expired_at", Leaf "100")]);
                        ("S3", Sample.record "!" "100")]));
      reflexivity.
  - eapply (C5_load_cases (Sample.store 0) Sample.db2 (Sample.session_of "S1")
              ([("S1", Sample.record "foo" "100");
                        ("S2", Nested [("expired_at", Leaf "100")]);
                        ("S3", Sample.record "!" "100")]));
      reflexivity.
Defined.

(** A failing [Deserialize] is returned by [load] with [exists = false]. *)
Lemma load_deserialize_error (s : BoltStore) (db : DB) (session session' : Session)
    (root bucket : Bucket) (data : string) (e : error) :
  db_open db = true ->
  Tx_Bucket (db_tx db) (BucketName (bs_options s)) = Some root ->
  Bucket_Bucket root (ID session) = Some bucket ->
  Bucket_Get bucket keyValues = Some data ->
  Deserialize (Serializer (bs_options s)) data session = (session', Some e) ->
  load s db session = Return (session', false, Some e).
Proof.
  intros Hopen Hroot Hb Hg Hd. unfold load, DB_View.
  now rewrite Hopen, Hroot, Hb, Hg, Hd.
Qed.

(** On a closed database [load] returns the error of [db.View]. *)
Lemma load_closed (s : BoltStore) (db : DB) (session : Session) :
  db_open db = false ->
  load s db session = Return (session, false, Some ErrDatabaseNotOpen).
Proof. intros Hopen. unfold load, DB_View. now rewrite Hopen. Qed.

(** [load] answers [true] only without an error. *)
Lemma load_true_nil (s : BoltStore) (db : DB) (session session' : Session)
    (err : option error) :
  load s db session = Return (session', true, err) -> err = None.
Proof.
  unfold load, DB_View.
  destruct (db_open db); simpl; [|congruence].
  destruct (Tx_Bucket _ _); simpl; [|congruence].
  destruct (Bucket_Bucket _ _); simpl; [|congruence].
  destruct (Bucket_Get _ _); simpl; [|congruence].
  destruct (Deserialize _ _ _) as [x [e|]]; simpl; congruence.
Qed.

(* ------------------------------------------------------------------ *)
(** ** Opening a session *)

Lemma find_cookie_absent (r : Request) (name : string) :
  (forall value, ~ In (name, value) r) -> find_cookie r name = None.
Proof.
  induction r as [|[n v] rest IH]; intros H; simpl; [reflexivity|].
  destruct (String.eqb n name) eqn:E.
  - apply String.eqb_eq in E. subst n. exfalso. apply (H v). now left.
  - apply IH. intros value Hin. apply (H value). now right.
Qed.

(** C10.  For a request with no cookie of the requested name, [New]
    returns a new session (IsNew true, empty ID, no values, the default
    options of the store) and a nil error. *)
Theorem C10_New_without_cookie (s : BoltStore) (db : DB) (r : Request) (name : string) :
  (forall value, ~ In (name, value) r) ->
  New s db r name = Return (mkSession "" [] (bs_Options s) true name, None).
Proof.
  intros H. unfold New, Request_Cookie.
  rewrite (find_cookie_absent _ _ H).
  now destruct (String.eqb name "").
Qed.

Lemma C10_New_without_cookie_witness :
  New (Sample.store 0) Sample.db1 [("other", "sid:S1")] "sid" =
  Return (mkSession "" [] (mkOptions "/" "" 3600 false false) true "sid", None).
Proof.
  apply (C10_New_without_cookie (Sample.store 0) Sample.db1 [("other", "sid:S1")] "sid").
  intros value [H|[]]. discriminate H.
Defined.

Section NewFacts.

Variable s : BoltStore.

(** The session that [New] hands to [load] once the cookie is decoded. *)
Let fresh (id name : string) : Session := mkSession id [] (bs_Options s) true name.

Lemma New_no_cookie (db : DB) (r : Request) (name : string) :
  Request_Cookie r name = None ->
  New s db r name = Return (fresh "" name, None).
Proof. intros H. unfold New. now rewrite H. Qed.

Lemma New_decode_error (db : DB) (r : Request) (name value id : string) (e : error) :
  Request_Cookie r name = Some value ->
  DecodeMulti (bs_Codecs s) name value "" = (id, Some e) ->
  New s db r name = Return (fresh id name, Some e).
Proof. intros Hc Hd. unfold New. rewrite Hc. simpl. now rewrite Hd. Qed.

Lemma New_loaded (db : DB) (r : Request) (name value id : string)
    (session' : Session) (ok : bool) (err : option error) :
  Request_Cookie r name = Some value ->
  DecodeMulti (bs_Codecs s) name value "" = (id, None) ->
  load s db (fresh id name) = Return (session', ok, err) ->
  New s db r name = Return (set_IsNew session' (negb (is_nil err && ok)), err).
Proof.
  intros Hc Hd Hl. unfold New. rewrite Hc. simpl. rewrite Hd.
  unfold fresh in Hl. unfold set_ID, set_IsNew at 2, set_Options, NewSession.
  simpl. now rewrite Hl.
Qed.

(** With the root bucket in place [load] never panics. *)
Lemma load_returns (db : DB) (session : Session) :
  Tx_Bucket (db_tx db) (BucketName (bs_options s)) <> None ->
  exists session' ok err, load s db session = Return (session', ok, err).
Proof.
  intros Hroot. unfold load, DB_View.
  destruct (db_open db); simpl; [|eauto].
  destruct (Tx_Bucket _ _); [|congruence]. simpl.
  destruct (Bucket_Bucket _ _); simpl; [|eauto].
  destruct (Bucket_Get _ _); simpl; [|eauto].
  destruct (Deserialize _ _ _) as [x [e|]]; simpl; eauto.
Qed.

(** [load] answers (true, nil) exactly on a record that is recovered. *)
Lemma load_true_iff (db : DB) (session : Session) :
  (exists session', load s db session = Return (session', true, None))
  <->
  (exists root bucket data session',
     db_open db = true
     /\ Tx_Bucket (db_tx db) (BucketName (bs_options s)) = Some root
     /\ Bucket_Bucket root (ID session) = Some bucket
     /\ Bucket_Get bucket keyValues = Some data
     /\ Deserialize (Serializer (bs_options s)) data session = (session', None)).
Proof.
  unfold load, DB_View. split.
  - intros [session' H].
    destruct (db_open db); simpl in H; [|congruence].
    destruct (Tx_Bucket _ _) as [root|]; simpl in H; [|congruence].
    destruct (Bucket_Bucket _ _) as [bucket|] eqn:Hb; simpl in H; [|congruence].
    destruct (Bucket_Get _ _) as [data|] eqn:Hg; simpl in H; [|congruence].
    destruct (Deserialize _ _ _) as [x [e|]] eqn:Hd; simpl in H; [congruence|].
    exists root, bucket, data, x. repeat split; assumption.
  - intros (root & bucket & data & session' & Hopen & Hroot & Hb & Hg & Hd).
    exists session'. now rewrite Hopen, Hroot, Hb, Hg, Hd.
Qed.

End NewFacts.

(** C6.  With the root bucket in place, [New] returns a session and an
    error such that: the session is new exactly when no prior record was
    recovered; a decode error of the cookie is the error returned; an
    error of [load] is the error returned; and the session comes with a
    nil error when there is no cookie or no stored values. *)
Theorem C6_New_IsNew (s : BoltStore) (db : DB) (r : Request) (name : string) :
  Tx_Bucket (db_tx db) (BucketName (bs_options s)) <> None ->
  exists session err,
    New s db r name = Return (session, err)
    /\ (IsNew session = true <-> ~ recovered s db r name)
    /\ (Request_Cookie r name = None -> err = None)
    /\ (forall value id e,
          Request_Cookie r name = Some value ->
          DecodeMulti (bs_Codecs s) name value "" = (id, Some e) ->
          err = Some e /\ IsNew session = true)
    /\ (forall value id session' ok e,
          Request_Cookie r name = Some value ->
          DecodeMulti (bs_Codecs s) name value "" = (id, None) ->
          load s db (mkSession id [] (bs_Options s) true name) =
            Return (session', ok, Some e) ->
          err = Some e /\ IsNew session = true)
    /\ (forall value id session',
          Request_Cookie r name = Some value ->
          DecodeMulti (bs_Codecs s) name value "" = (id, None) ->
          load s db (mkSession id [] (bs_Options s) true name) =
            Return (session', false, None) ->
          err = None /\ IsNew session = true).
Proof.
  intros Hroot.
  destruct (Request_Cookie r name) as [value|] eqn:Hc.
  - destruct (DecodeMulti (bs_Codecs s) name value "") as [id [e|]] eqn:Hd.
    + exists (mkSession id [] (bs_Options s) true name), (Some e).
      split; [exact (New_decode_error s db r name value id e Hc Hd)|].
      split; [|repeat split; try congruence].
      simpl. split; [|reflexivity]. intros _ (v & i & ? & ? & ? & ? & Hc' & Hd' & _).
      congruence.
    + destruct (load_returns s db (mkSession id [] (bs_Options s) true name) Hroot)
        as (session' & ok & err & Hl).
      exists (set_IsNew session' (negb (is_nil err && ok))), err.
      split; [exact (New_loaded s db r name value id session' ok err Hc Hd Hl)|].
      split.
      * simpl. split.
        -- intros Hnew (v & i & root & bucket & data & x & Hc' & Hd' & Hrest).
           assert (v = value) by congruence. subst v.
           assert (i = id) by congruence. subst i.
           destruct (proj2 (load_true_iff s db (mkSession id [] (bs_Options s) true name)))
             as [y Hy]; [exists root, bucket, data, x; exact Hrest|].
           rewrite Hy in Hl. inversion Hl; subst. discriminate Hnew.
        -- intros Hnot. destruct err as [e|]; [reflexivity|].
           destruct ok; [|reflexivity]. exfalso. apply Hnot.
           destruct (proj1 (load_true_iff s db (mkSession id [] (bs_Options s) true name)))
             as (root & bucket & data & x & Hrest); [now exists session'|].
           now exists value, id, root, bucket, data, x.
      * split; [congruence|]. split; [congruence|]. split.
        -- intros v i x ok' e Hv Hi Hl'.
           assert (v = value) by congruence. subst v.
           assert (i = id) by congruence. subst i.
           rewrite Hl in Hl'. inversion Hl'; subst. now split.
        -- intros v i x Hv Hi Hl'.
           assert (v = value) by congruence. subst v.
           assert (i = id) by congruence. subst i.
           rewrite Hl in Hl'. inversion Hl'; subst. now split.
  - exists (mkSession "" [] (bs_Options s) true name), None.
    split; [exact (New_no_cookie s db r name Hc)|].
    split; [|repeat split; congruence].
    simpl. split; [|reflexivity]. intros _ (v & ? & ? & ? & ? & ? & Hc' & _).
    congruence.
Qed.

Lemma C6_New_IsNew_witness :
  exists session err,
    New (Sample.store 0) Sample.db2 [("sid", "sid:S3")] "sid" = Return (session, err)
    /\ (IsNew session = true <->
        ~ recovered (Sample.store 0) Sample.db2 [("sid", "sid:S3")] "sid")
    /\ (Request_Cookie [("sid", "sid:S3")] "sid" = None -> err = None)
    /\ (forall value id e,
          Request_Cookie [("sid", "sid:S3")] "sid" = Some value ->
          DecodeMulti (bs_Codecs (Sample.store 0)) "sid" value "" = (id, Some e) ->
          err = Some e /\ IsNew session = true)
    /\ (forall value id session' ok e,
          Request_Cookie [("sid", "sid:S3")] "sid" = Some value ->
          DecodeMulti (bs_Codecs (Sample.store 0)) "sid" value "" = (id, None) ->
          load (Sample.store 0) Sample.db2
            (mkSession id [] (bs_Options (Sample.store 0)) true "sid") =
            Return (session', ok, Some e) ->
          err = Some e /\ IsNew session = true)
    /\ (forall value id session',
          Request_Cookie [("sid", "sid:S3")] "sid" = Some value ->
          DecodeMulti (bs_Codecs (Sample.store 0)) "sid" value "" = (id, None) ->
          load (Sample.store 0) Sample.db2
            (mkSession id [] (bs_Options (Sample.store 0)) true "sid") =
            Return (session', false, None) ->
          err = None /\ IsNew session = true).
Proof.
  apply (C6_New_IsNew (Sample.store 0) Sample.db2 [("sid", "sid:S3")] "sid").
  simpl. discriminate.
Defined.

Example New_recovers_S1 :
  New (Sample.store 0) Sample.db2 [("sid", "sid:S1")] "sid" =
  Return (mkSession "S1" [("k", "foo")] (mkOptions "/" "" 3600 false false) false "sid",
          None).
Proof. reflexivity. Qed.

Example New_no_values_S2 :
  New (Sample.store 0) Sample.db2 [("sid", "sid:S2")] "sid" =
  Return (mkSession "S2" [] (mkOptions "/" "" 3600 false false) true "sid", None).
Proof. reflexivity. Qed.

Example New_bad_payload_S3 :
  New (Sample.store 0) Sample.db2 [("sid", "sid:S3")] "sid" =
  Return (mkSession "S3" [] (mkOptions "/" "" 3600 false false) true "sid",
          Some (ErrExternal "bad payload")).
Proof. reflexivity. Qed.

Example New_bad_token :
  New (Sample.store 0) Sample.db2 [("sid", "garbage")] "sid" =
  Return (mkSession "" [] (mkOptions "/" "" 3600 false false) true "sid",
          Some (ErrExternal "securecookie: the value is not valid")).
Proof. reflexivity. Qed.

Example New_unknown_id :
  New (Sample.store 0) Sample.db2 [("sid", "sid:S9")] "sid" =
  Return (mkSession "S9" [] (mkOptions "/" "" 3600 false false) true "sid",
          Some (ErrInvalidSessionBucket "sessions" "S9")).
Proof. reflexivity. Qed.

(* ------------------------------------------------------------------ *)
(** ** Saving a session *)

Section SaveFacts.

Variable s : BoltStore.

(** The outcomes of [save]: the size error with the database untouched,
    or what the serializer and the write transaction give. *)
Lemma save_not_too_big_when_unlimited (now : Time) (db db' : DB) (session : Session) :
  MaxLength (bs_options s) = 0 ->
  save s now db session <> Return (db', Some ErrTooBig).
Proof.
  intros H0. unfold save, DB_Update. rewrite H0. simpl.
  destruct (Serialize _ _) as [b|e]; [|congruence].
  destruct (db_open db); [|congruence].
  destruct (Tx_Bucket _ _); [|congruence].
  destruct (Bucket_CreateBucketIfNotExists _ _) as [[root1 root]|e]; [|congruence].
  destruct (Bucket_Put root keyValues b) as [root'|e]; [|congruence].
  destruct (Bucket_Put root' keyExpiredAt _) as [root''|e]; congruence.
Qed.

End SaveFacts.

(** A payload longer than a positive [MaxLength] is refused before the
    write transaction starts. *)
Lemma save_too_big (s : BoltStore) (now : Time) (db : DB) (session : Session)
    (b : string) :
  Serialize (Serializer (bs_options s)) session = inl b ->
  0 < MaxLength (bs_options s) ->
  MaxLength (bs_options s) < len b ->
  save s now db session = Return (db, Some ErrTooBig).
Proof.
  intros Hs Hpos Hlen. unfold save. rewrite Hs.
  replace (MaxLength (bs_options s) =? 0) with false
    by (symmetry; apply Z.eqb_neq; lia).
  replace (len b >? MaxLength (bs_options s)) with true
    by (symmetry; apply Z.gtb_lt; lia).
  reflexivity.
Qed.

(** C4.  When the serialized payload is longer than a positive
    [MaxLength], [save] returns the size error and the database it was
    given, whatever its state; with [MaxLength = 0], [save] never
    returns the size error. *)
Theorem C4_save_size_limit (s : BoltStore) (now : Time) (db : DB)
    (session : Session) (b : string) :
  Serialize (Serializer (bs_options s)) session = inl b ->
  (0 < MaxLength (bs_options s) ->
   MaxLength (bs_options s) < len b ->
   save s now db session = Return (db, Some ErrTooBig))
  /\ (MaxLength (bs_options s) = 0 ->
      forall db', save s now db session <> Return (db', Some ErrTooBig)).
Proof.
  intros Hs. split.
  - now apply save_too_big.
  - intros H0 db'. now apply save_not_too_big_when_unlimited.
Qed.

Lemma C4_save_size_limit_witness :
  save (Sample.store 2) (clock 200 0) Sample.db1 (Sample.session1 3600) =
    Return (Sample.db1, Some ErrTooBig)
  /\ (forall db',
        save (Sample.store 0) (clock 200 0) Sample.db1 (Sample.session1 3600) <>
        Return (db', Some ErrTooBig)).
Proof.
  split.
  - apply (C4_save_size_limit (Sample.store 2) (clock 200 0) Sample.db1
             (Sample.session1 3600) "foo"); reflexivity.
  - apply (C4_save_size_limit (Sample.store 0) (clock 200 0) Sample.db1
             (Sample.session1 3600) "foo"); reflexivity.
Defined.

(** The public [Save] passes the size error on, sets no cookie and
    leaves the database as it was. *)
Lemma Save_too_big (s : BoltStore) (now : Time) (key : list Z) (db : DB)
    (w : ResponseWriter) (session : Session) (b : string) :
  0 < MaxAge (sOptions session) ->
  ID session <> "" ->
  Serialize (Serializer (bs_options s)) session = inl b ->
  0 < MaxLength (bs_options s) ->
  MaxLength (bs_options s) < len b ->
  Save s now key db w session =
  Return (db, w, session, Some (Wrap "save session to store error" ErrTooBig)).
Proof.
  intros Hage Hid Hs Hpos Hlen. unfold Save.
  replace (MaxAge (sOptions session) <=? 0) with false
    by (symmetry; apply Z.leb_gt; lia).
  apply String.eqb_neq in Hid. rewrite Hid.
  now rewrite (save_too_big s now db session b Hs Hpos Hlen).
Qed.

(* ------------------------------------------------------------------ *)
(** ** strconv: [ParseInt] reads what [FormatInt] writes *)

Section Strconv.

Lemma digit_cases (d : Z) :
  0 <= d < 10 ->
  d = 0 \/ d = 1 \/ d = 2 \/ d = 3 \/ d = 4 \/ d = 5 \/ d = 6 \/ d = 7 \/ d = 8 \/ d = 9.
Proof. lia. Qed.

Ltac each_digit d H :=
  destruct (digit_cases d H) as [->|[->|[->|[->|[->|[->|[->|[->|[->| ->]]]]]]]]].

Lemma is_digit_digit_char (d : Z) : 0 <= d < 10 -> is_digit (digit_char d) = true.
Proof. intros H. each_digit d H; reflexivity. Qed.

Lemma digit_val_digit_char (d : Z) : 0 <= d < 10 -> digit_val (digit_char d) = d.
Proof. intros H. each_digit d H; reflexivity. Qed.

Lemma digit_char_not_sign (d : Z) :
  0 <= d < 10 ->
  Ascii.eqb (digit_char d) "+" = false /\ Ascii.eqb (digit_char d) "-" = false.
Proof. intros H. each_digit d H; split; reflexivity. Qed.

(** One round of the parse loop on a digit, below the overflow checks. *)
Lemma parseUint_loop_digit (d n : Z) (rest : string) :
  0 <= d < 10 -> 0 <= n -> n * 10 + d <= maxUint64 ->
  parseUint_loop (String (digit_char d) rest) n = parseUint_loop rest (n * 10 + d).
Proof.
  intros Hd Hn Hmax. cbn [parseUint_loop].
  rewrite (is_digit_digit_char d Hd), (digit_val_digit_char d Hd). cbv zeta.
  assert (Hc : n < cutoff10).
  { unfold maxUint64 in Hmax. change (2 ^ 64) with 18446744073709551616 in Hmax.
    change cutoff10 with 1844674407370955162. lia. }
  replace (n >=? cutoff10) with false by (symmetry; rewrite Z.geb_leb; apply Z.leb_gt; lia).
  assert (Hm : (n * 10 + d) mod 2 ^ 64 = n * 10 + d).
  { apply Z.mod_small. unfold maxUint64 in Hmax. lia. }
  rewrite Hm.
  replace (n * 10 + d <? n * 10) with false by (symmetry; apply Z.ltb_ge; lia).
  replace (n * 10 + d >? maxUint64) with false
    by (symmetry; rewrite Z.gtb_ltb; apply Z.ltb_ge; lia).
  reflexivity.
Qed.

(** Parsing the digits that [formatBits] puts in front of [acc] is
    parsing [acc] from the number formatted. *)
Lemma parseUint_loop_formatBits (fuel : nat) :
  forall (u : Z) (acc : string),
    0 <= u < 10 ^ Z.of_nat fuel -> u <= maxUint64 ->
    parseUint_loop (formatBits fuel u acc) 0 = parseUint_loop acc u.
Proof.
  induction fuel as [|f IH]; intros u acc Hu Hmax.
  - simpl in *. assert (u = 0) by lia. now subst.
  - cbn [formatBits].
    assert (Hd : 0 <= u mod 10 < 10) by (apply Z.mod_pos_bound; lia).
    destruct (u <? 10) eqn:E.
    + apply Z.ltb_lt in E.
      assert (Hs : u mod 10 = u) by (apply Z.mod_small; lia).
      rewrite parseUint_loop_digit; [f_equal; lia|lia|lia|lia].
    + apply Z.ltb_ge in E.
      assert (Hdiv : u = 10 * (u / 10) + u mod 10) by (apply Z.div_mod; lia).
      assert (Hq : 0 <= u / 10) by (apply Z.div_pos; lia).
      assert (Hq' : u / 10 <= u) by (apply Z.div_le_upper_bound; lia).
      rewrite IH.
      * rewrite parseUint_loop_digit; [f_equal; lia|lia|lia|lia].
      * split; [exact Hq|].
        apply Z.div_lt_upper_bound; [lia|].
        rewrite Nat2Z.inj_succ, Z.pow_succ_r in Hu; lia.
      * lia.
Qed.

(** What [formatBits] writes starts with a digit. *)
Lemma formatBits_head (fuel : nat) :
  forall (u : Z) (acc : string),
    0 <= u ->
    exists d rest, 0 <= d < 10 /\ formatBits (S fuel) u acc = String (digit_char d) rest.
Proof.
  induction fuel as [|f IH]; intros u acc Hu.
  - exists (u mod 10), acc. split; [apply Z.mod_pos_bound; lia|].
    simpl. now destruct (u <? 10).
  - change (formatBits (S (S f)) u acc)
      with (if u <? 10 then String (digit_char (u mod 10)) acc
            else formatBits (S f) (u / 10) (String (digit_char (u mod 10)) acc)).
    destruct (u <? 10).
    + exists (u mod 10), acc. split; [apply Z.mod_pos_bound; lia|reflexivity].
    + apply IH. apply Z.div_pos; lia.
Qed.

Lemma ParseUint_formatBits (u : Z) :
  0 <= u <= 2 ^ 63 ->
  ParseUint (formatBits 20 u "") = inl u.
Proof.
  intros Hu.
  destruct (formatBits_head 19 u "" (proj1 Hu)) as (d & rest & Hd & Hf).
  unfold ParseUint. rewrite Hf. rewrite <- Hf.
  rewrite parseUint_loop_formatBits; [reflexivity| |].
  - change (10 ^ Z.of_nat 20) with 100000000000000000000.
    change (2 ^ 63) with 9223372036854775808 in Hu. lia.
  - unfold maxUint64. change (2 ^ 64) with 18446744073709551616.
    change (2 ^ 63) with 9223372036854775808 in Hu. lia.
Qed.

(** Every int64 is read back from its decimal text. *)
Lemma ParseInt_FormatInt (x : Z) :
  - 2 ^ 63 <= x < 2 ^ 63 -> ParseInt (FormatInt x) = inl x.
Proof.
  intros Hx. unfold FormatInt.
  destruct (x <? 0) eqn:E.
  - apply Z.ltb_lt in E.
    assert (Hu : 0 <= - x <= 2 ^ 63) by lia.
    unfold ParseInt.
    change (Ascii.eqb "-" "+") with false. change (Ascii.eqb "-" "-") with true.
    cbv iota beta. rewrite (ParseUint_formatBits _ Hu).
    replace (- x >? 2 ^ 63) with false by (symmetry; rewrite Z.gtb_ltb; apply Z.ltb_ge; lia).
    simpl. f_equal. lia.
  - apply Z.ltb_ge in E.
    assert (Hu : 0 <= x <= 2 ^ 63) by lia.
    destruct (formatBits_head 19 x "" E) as (d & rest & Hd & Hf).
    pose proof (ParseUint_formatBits _ Hu) as HP.
    rewrite Hf in *. unfold ParseInt.
    destruct (digit_char_not_sign d Hd) as [-> ->].
    cbv iota beta. rewrite HP.
    replace (x >=? 2 ^ 63) with false by (symmetry; rewrite Z.geb_leb; apply Z.leb_gt; lia).
    reflexivity.
Qed.

Lemma wrap64_range (z : Z) : - 2 ^ 63 <= wrap64 z < 2 ^ 63.
Proof.
  unfold wrap64.
  pose proof (Z.mod_pos_bound (z + 2 ^ 63) (2 ^ 64) ltac:(lia)).
  change (2 ^ 64) with (2 * 2 ^ 63) in *. lia.
Qed.

Lemma wrap64_small (z : Z) : - 2 ^ 63 <= z < 2 ^ 63 -> wrap64 z = z.
Proof.
  intros H. unfold wrap64. rewrite Z.mod_small; [lia|].
  change (2 ^ 64) with (2 * 2 ^ 63). lia.
Qed.

End Strconv.

(* ------------------------------------------------------------------ *)
(** ** Writing a record *)

Section PutFacts.

Lemma CreateBucketIfNotExists_inl (b b1 c : Bucket) (key : string) :
  Bucket_CreateBucketIfNotExists b key = inl (b1, c) ->
  seek b1 key = Some (Nested c)
  /\ (forall k, k <> key -> seek b1 k = seek b k)
  /\ (Bucket_Bucket b key = Some c \/ (Bucket_Bucket b key = None /\ c = [])).
Proof.
  unfold Bucket_CreateBucketIfNotExists, Bucket_Bucket.
  destruct (len key =? 0); [discriminate|].
  destruct (seek b key) as [[v|c']|] eqn:E; intros H; inversion H; subst.
  - split; [exact E|]. split; [reflexivity|now left].
  - split; [apply seek_put_same|].
    split; [intros k Hk; now apply seek_put_other|now right].
Qed.

Lemma Bucket_Put_inl (b b' : Bucket) (key value : string) :
  Bucket_Put b key value = inl b' -> b' = put b key (Leaf value).
Proof.
  unfold Bucket_Put.
  destruct (len key =? 0); [discriminate|].
  destruct (len key >? MaxKeySize); [discriminate|].
  destruct (len value >? MaxValueSize); [discriminate|].
  destruct (seek b key) as [[v|c]|]; congruence.
Qed.

Lemma Bucket_Get_put_same (b : Bucket) (key value : string) :
  Bucket_Get (put b key (Leaf value)) key = Some value.
Proof. unfold Bucket_Get. now rewrite seek_put_same. Qed.

Lemma Bucket_Get_put_other (b : Bucket) (key k value : string) :
  k <> key -> Bucket_Get (put b key (Leaf value)) k = Bucket_Get b k.
Proof. intros H. unfold Bucket_Get. now rewrite seek_put_other. Qed.

End PutFacts.

Section SaveSuccess.

Variable s : BoltStore.

(** What a successful [save] has written, in one transaction. *)
Lemma save_success (now : Time) (db db' : DB) (session : Session) :
  save s now db session = Return (db', None) ->
  let expiredAt :=
    FormatInt (Time_Unix (Time_Add now (SessionExpire (bs_options s)))) in
  exists root root' b bucket',
    db_open db = true
    /\ Tx_Bucket (db_tx db) (BucketName (bs_options s)) = Some root
    /\ db_open db' = true
    /\ Tx_Bucket (db_tx db') (BucketName (bs_options s)) = Some root'
    /\ Serialize (Serializer (bs_options s)) session = inl b
    /\ Bucket_Bucket root' (ID session) = Some bucket'
    /\ Bucket_Get bucket' keyValues = Some b
    /\ Bucket_Get bucket' keyExpiredAt = Some expiredAt
    /\ (Bucket_Bucket root (ID session) = None ->
        bucket' = [(keyExpiredAt, Leaf expiredAt); (keyValues, Leaf b)])
    /\ (forall bucket,
          Bucket_Bucket root (ID session) = Some bucket ->
          forall k, k <> keyValues -> k <> keyExpiredAt ->
                    seek bucket' k = seek bucket k)
    /\ (forall k, k <> ID session -> seek root' k = seek root k)
    /\ (forall k, k <> BucketName (bs_options s) ->
                  seek (db_tx db') k = seek (db_tx db) k).
Proof.
  intros H expiredAt. unfold save, DB_Update in H.
  destruct (Serialize _ _) as [b|e] eqn:Hs; [|discriminate].
  destruct (negb _ && _); [discriminate|].
  destruct (db_open db) eqn:Hopen; [|discriminate].
  destruct (Tx_Bucket _ _) as [root0|] eqn:Hroot; [|discriminate].
  destruct (Bucket_CreateBucketIfNotExists _ _) as [[root1 sb]|e] eqn:Hc; [|discriminate].
  destruct (Bucket_Put sb keyValues b) as [sb1|e] eqn:Hp1; [|discriminate].
  destruct (Bucket_Put sb1 keyExpiredAt _) as [sb2|e] eqn:Hp2; [|discriminate].
  inversion H; subst db'; clear H.
  apply Bucket_Put_inl in Hp1, Hp2. fold expiredAt in Hp2.
  destruct (CreateBucketIfNotExists_inl _ _ _ _ Hc) as (Hk1 & Hother & Hcase).
  assert (Hne : keyValues <> keyExpiredAt) by discriminate.
  exists root0, (store_child root1 (ID session) sb2), b, sb2. simpl.
  split; [reflexivity|]. split; [reflexivity|]. split; [reflexivity|].
  split.
  { unfold Tx_Bucket, Bucket_Bucket.
    now rewrite (seek_store_child_same _ _ _ _ (Bucket_Bucket_seek _ _ _ Hroot)). }
  split; [reflexivity|].
  split.
  { unfold Bucket_Bucket. now rewrite (seek_store_child_same _ _ _ _ Hk1). }
  split.
  { subst sb2 sb1. rewrite Bucket_Get_put_other by exact Hne.
    apply Bucket_Get_put_same. }
  split.
  { subst sb2. apply Bucket_Get_put_same. }
  split.
  { intros Hnone. destruct Hcase as [Hsome|[_ ->]]; [congruence|].
    subst sb2 sb1. reflexivity. }
  split.
  { intros bucket Hb k Hkv Hke.
    destruct Hcase as [Hsome|[Hnone _]]; [|congruence].
    assert (bucket = sb) by congruence. subst bucket sb2 sb1.
    rewrite seek_put_other by exact Hke. now rewrite seek_put_other by exact Hkv. }
  split.
  { intros k Hk. rewrite seek_store_child_other by exact Hk. now apply Hother. }
  intros k Hk. now apply seek_store_child_other.
Qed.

(** [Save] with a positive [MaxAge] succeeds only through [save] and
    [EncodeMulti], on the session with its identifier filled in. *)
Lemma Save_success (now : Time) (key : list Z) (db db' : DB)
    (w w' : ResponseWriter) (session session' : Session) :
  0 < MaxAge (sOptions session) ->
  Save s now key db w session = Return (db', w', session', None) ->
  session' = (if String.eqb (ID session) "" then set_ID session (newSessionID key)
              else session)
  /\ save s now db session' = Return (db', None)
  /\ exists encoded,
       EncodeMulti (bs_Codecs s) (sName session') (ID session') = inl encoded
       /\ w' = SetCookie w (NewCookie (sName session') encoded (sOptions session')).
Proof.
  intros Hage H. unfold Save in H.
  replace (MaxAge (sOptions session) <=? 0) with false in H
    by (symmetry; apply Z.leb_gt; lia).
  set (x := if String.eqb (ID session) "" then set_ID session (newSessionID key)
            else session) in *.
  destruct (save s now db x) as [[db1 [e|]]|] eqn:Hsave; simpl in H; try discriminate.
  destruct (EncodeMulti _ _ _) as [encoded|e] eqn:He; [|discriminate].
  inversion H; subst. split; [reflexivity|]. split; [exact Hsave|].
  exists encoded. split; [exact He|reflexivity].
Qed.

End SaveSuccess.

(** The Unix second that [save] writes: the save instant plus the
    lifetime, in whole seconds. *)
Lemma Time_Unix_Add_clock (sec n d : Z) :
  0 <= sec < 2 ^ 62 -> 0 <= n < 10 ^ 9 -> - 2 ^ 63 <= d < 2 ^ 63 ->
  Time_Unix (Time_Add (clock sec n) d) = (sec * 10 ^ 9 + n + d) / 10 ^ 9.
Proof.
  intros Hsec Hn Hd.
  change (10 ^ 9) with 1000000000 in *.
  change (2 ^ 62) with 4611686018427387904 in Hsec.
  change (2 ^ 63) with 9223372036854775808 in Hd.
  pose proof (Z.quot_rem' d 1000000000) as Hqr.
  assert (Hr : - 1000000000 < Z.rem d 1000000000 < 1000000000).
  { pose proof (Z.rem_bound_abs d 1000000000 ltac:(lia)). lia. }
  assert (Hq : - 9223372037 <= Z.quot d 1000000000 <= 9223372037) by lia.
  unfold Time_Add, clock. cbn [t_sec t_nsec].
  set (q := Z.quot d 1000000000) in *. set (r := Z.rem d 1000000000) in *.
  assert (Hw : forall z, - 100000000000 <= z <= 5000000000000000000 ->
                         Time_Unix (mkTime (wrap64 (z + unixToInternal)) 0) = z).
  { intros z Hz. unfold Time_Unix, unixToInternal. cbn [t_sec].
    rewrite (wrap64_small (z + 62135596800))
      by (change (2 ^ 63) with 9223372036854775808; lia).
    rewrite wrap64_small by (change (2 ^ 63) with 9223372036854775808; lia). lia. }
  assert (Hu : forall z m, Time_Unix (mkTime z m) = Time_Unix (mkTime z 0)) by reflexivity.
  destruct (n + r >=? 1000000000) eqn:E1.
  - rewrite Z.geb_leb in E1. apply Z.leb_le in E1.
    rewrite Hu. replace (sec + unixToInternal + (q + 1)) with (sec + q + 1 + unixToInternal) by lia.
    rewrite Hw by lia.
    apply Z.div_unique with (n + r - 1000000000); lia.
  - rewrite Z.geb_leb in E1. apply Z.leb_gt in E1.
    destruct (n + r <? 0) eqn:E2.
    + apply Z.ltb_lt in E2.
      rewrite Hu. replace (sec + unixToInternal + (q - 1)) with (sec + q - 1 + unixToInternal) by lia.
      rewrite Hw by lia.
      apply Z.div_unique with (n + r + 1000000000); lia.
    + apply Z.ltb_ge in E2.
      rewrite Hu. replace (sec + unixToInternal + q) with (sec + q + unixToInternal) by lia.
      rewrite Hw by lia.
      apply Z.div_unique with (n + r); lia.
Qed.

(** C7.  A [Save] with a positive [MaxAge] that returns nil has, in its
    one write transaction, put under the root bucket a bucket named by
    the session identifier whose [values] entry is the serialized
    payload and whose [expired_at] entry is the decimal text of the Unix
    second of the save instant plus [SessionExpire]; [ParseInt] reads
    that text back.  A bucket that was absent is created with exactly
    these two entries; one that was there keeps its other entries; the
    other records and buckets are as before. *)
Theorem C7_Save_writes_record (s : BoltStore) (now : Time) (key : list Z)
    (db db' : DB) (w w' : ResponseWriter) (session session' : Session) :
  0 < MaxAge (sOptions session) ->
  Save s now key db w session = Return (db', w', session', None) ->
  let expiry := Time_Unix (Time_Add now (SessionExpire (bs_options s))) in
  exists root root' b bucket',
    Tx_Bucket (db_tx db) (BucketName (bs_options s)) = Some root
    /\ Tx_Bucket (db_tx db') (BucketName (bs_options s)) = Some root'
    /\ Serialize (Serializer (bs_options s)) session' = inl b
    /\ Bucket_Bucket root' (ID session') = Some bucket'
    /\ Bucket_Get bucket' keyValues = Some b
    /\ Bucket_Get bucket' keyExpiredAt = Some (FormatInt expiry)
    /\ ParseInt (FormatInt expiry) = inl expiry
    /\ (forall sec n,
          now = clock sec n -> 0 <= sec < 2 ^ 62 -> 0 <= n < 10 ^ 9 ->
          - 2 ^ 63 <= SessionExpire (bs_options s) < 2 ^ 63 ->
          expiry = (sec * 10 ^ 9 + n + SessionExpire (bs_options s)) / 10 ^ 9)
    /\ (Bucket_Bucket root (ID session') = None ->
        bucket' = [(keyExpiredAt, Leaf (FormatInt expiry)); (keyValues, Leaf b)])
    /\ (forall bucket,
          Bucket_Bucket root (ID session') = Some bucket ->
          forall k, k <> keyValues -> k <> keyExpiredAt ->
                    seek bucket' k = seek bucket k)
    /\ (forall k, k <> ID session' -> seek root' k = seek root k)
    /\ (forall k, k <> BucketName (bs_options s) ->
                  seek (db_tx db') k = seek (db_tx db) k).
Proof.
  intros Hage HS expiry.
  destruct (Save_success s now key db db' w w' session session' Hage HS)
    as (_ & Hsave & _).
  destruct (save_success s now db db' session' Hsave)
    as (root & root' & b & bucket' & _ & H1 & _ & H2 & H3 & H4 & H5 & H6 & H7 & H8 & H9 & H10).
  exists root, root', b, bucket'.
  repeat (split; [assumption|]).
  split; [apply ParseInt_FormatInt, wrap64_range|].
  split.
  { intros sec n -> Hsec Hn Hd. now apply Time_Unix_Add_clock. }
  repeat (split; [assumption|]). assumption.
Qed.

Lemma C7_Save_writes_record_witness :
  let s := Sample.store 0 in
  let session := mkSession "S7" [("k", "bar")] (mkOptions "/" "" 3600 false false) true "sid" in
  let db' :=
    mkDB true [("sessions", Nested [("S1", Sample.record "foo" "100");
                                    ("S7", Sample.record "bar" "3800")])] in
  let expiry := Time_Unix (Time_Add (clock 200 5) (SessionExpire (bs_options s))) in
  exists root root' b bucket',
    Tx_Bucket (db_tx Sample.db1) (BucketName (bs_options s)) = Some root
    /\ Tx_Bucket (db_tx db') (BucketName (bs_options s)) = Some root'
    /\ Serialize (Serializer (bs_options s)) session = inl b
    /\ Bucket_Bucket root' (ID session) = Some bucket'
    /\ Bucket_Get bucket' keyValues = Some b
    /\ Bucket_Get bucket' keyExpiredAt = Some (FormatInt expiry)
    /\ ParseInt (FormatInt expiry) = inl expiry
    /\ (forall sec n,
          clock 200 5 = clock sec n -> 0 <= sec < 2 ^ 62 -> 0 <= n < 10 ^ 9 ->
          - 2 ^ 63 <= SessionExpire (bs_options s) < 2 ^ 63 ->
          expiry = (sec * 10 ^ 9 + n + SessionExpire (bs_options s)) / 10 ^ 9)
    /\ (Bucket_Bucket root (ID session) = None ->
        bucket' = [(keyExpiredAt, Leaf (FormatInt expiry)); (keyValues, Leaf b)])
    /\ (forall bucket,
          Bucket_Bucket root (ID session) = Some bucket ->
          forall k, k <> keyValues -> k <> keyExpiredAt ->
                    seek bucket' k = seek bucket k)
    /\ (forall k, k <> ID session -> seek root' k = seek root k)
    /\ (forall k, k <> BucketName (bs_options s) ->
                  seek (db_tx db') k = seek (db_tx Sample.db1) k).
Proof.
  intros s session db'.
  apply (C7_Save_writes_record s (clock 200 5) [] Sample.db1 db' []
           [mkCookie "sid" "sid:S7" "/" "" 3600 false false] session session).
  - reflexivity.
  - reflexivity.
Defined.

Example Save_updates_S1 :
  Save (Sample.store 0) (clock 200 5) [] Sample.db1 []
    (mkSession "S1" [("k", "new")] (mkOptions "/" "" 3600 false false) false "sid") =
  Return (mkDB true [("sessions", Nested [("S1", Sample.record "new" "3800")])],
          [mkCookie "sid" "sid:S1" "/" "" 3600 false false],
          mkSession "S1" [("k", "new")] (mkOptions "/" "" 3600 false false) false "sid",
          None).
Proof. reflexivity. Qed.

(* ------------------------------------------------------------------ *)
(** ** The classification of the read pass *)

Section Classification.

Lemma Time_Before_nanos (t u : Time) :
  0 <= t_nsec t < 10 ^ 9 -> 0 <= t_nsec u < 10 ^ 9 ->
  (Time_Before t u = true <-> unix_nanos t < unix_nanos u).
Proof.
  change (10 ^ 9) with 1000000000. intros Ht Hu.
  unfold Time_Before, unix_nanos. change (10 ^ 9) with 1000000000.
  rewrite orb_true_iff, andb_true_iff, !Z.ltb_lt, Z.eqb_eq. lia.
Qed.

(** [time.Unix] keeps the second it is given unless the shift to the
    internal epoch leaves the int64 range. *)
Lemma time_Unix_nanos (t : Z) :
  - 2 ^ 63 <= t < 2 ^ 63 - unixToInternal ->
  unix_nanos (time_Unix t) = t * 10 ^ 9.
Proof.
  intros H. unfold unix_nanos, time_Unix. cbn [t_sec t_nsec].
  rewrite wrap64_small; [lia|].
  unfold unixToInternal in *. lia.
Qed.

Lemma isExpired_iff (sb : Bucket) (now : Time) :
  0 <= t_nsec now < 10 ^ 9 ->
  (isExpired sb now = true <->
   Bucket_Get sb keyExpiredAt = None
   \/ (exists v e, Bucket_Get sb keyExpiredAt = Some v /\ ParseInt v = inr e)
   \/ (exists v t, Bucket_Get sb keyExpiredAt = Some v /\ ParseInt v = inl t
                   /\ unix_nanos (time_Unix t) < unix_nanos now)).
Proof.
  intros Hn. unfold isExpired.
  destruct (Bucket_Get sb keyExpiredAt) as [v|].
  - destruct (ParseInt v) as [t|e] eqn:Hp.
    + rewrite Time_Before_nanos; [|simpl; change (10 ^ 9) with 1000000000; lia|exact Hn].
      split.
      * intros H. right. right. exists v, t. now repeat split.
      * intros [H|[(v' & e & H & Hp')|(v' & t' & H & Hp' & Hlt)]]; congruence.
    + split; [|reflexivity]. intros _. right. left. now exists v, e.
  - split; [|reflexivity]. intros _. now left.
Qed.

End Classification.

(** C3, as it is stated, fails.  A record whose [expired_at] is "100",
    scanned at Unix second 100 sharp, parses to an instant at the
    current instant, and the read pass does not mark it as expired. *)
Lemma C3_counterexample :
  ~ (isExpired [("expired_at", Leaf "100")] (clock 100 0) = true <->
     Bucket_Get [("expired_at", Leaf "100")] keyExpiredAt = None
     \/ (exists v e,
           Bucket_Get [("expired_at", Leaf "100")] keyExpiredAt = Some v
           /\ ParseInt v = inr e)
     \/ (exists v t,
           Bucket_Get [("expired_at", Leaf "100")] keyExpiredAt = Some v
           /\ ParseInt v = inl t
           /\ t * 10 ^ 9 <= unix_nanos (clock 100 0))).
Proof.
  intros [_ H].
  assert (Hfalse : isExpired [("expired_at", Leaf "100")] (clock 100 0) = false)
    by reflexivity.
  rewrite H in Hfalse; [discriminate|].
  right. right. exists "100", 100.
  split; [reflexivity|]. split; [reflexivity|].
  vm_compute. discriminate.
Qed.

(** C3, amended.  The read pass marks a session bucket as expired if and
    only if its [expired_at] entry is missing, or [ParseInt] fails on
    it, or it parses to a second [t] such that the instant
    [time.Unix(t, 0)] is strictly before the current instant.  For
    [t < 2^63 - 62135596800] that instant is the Unix second [t]. *)
Theorem C3_isExpired_strictly_before (sb : Bucket) (now : Time) :
  0 <= t_nsec now < 10 ^ 9 ->
  (isExpired sb now = true <->
   Bucket_Get sb keyExpiredAt = None
   \/ (exists v e, Bucket_Get sb keyExpiredAt = Some v /\ ParseInt v = inr e)
   \/ (exists v t, Bucket_Get sb keyExpiredAt = Some v /\ ParseInt v = inl t
                   /\ unix_nanos (time_Unix t) < unix_nanos now))
  /\ (forall t, - 2 ^ 63 <= t < 2 ^ 63 - unixToInternal ->
                unix_nanos (time_Unix t) = t * 10 ^ 9).
Proof.
  intros Hn. split; [now apply isExpired_iff|exact time_Unix_nanos].
Qed.

Lemma C3_isExpired_strictly_before_witness :
  (isExpired [("expired_at", Leaf "100")] (clock 100 1) = true <->
   Bucket_Get [("expired_at", Leaf "100")] keyExpiredAt = None
   \/ (exists v e,
         Bucket_Get [("expired_at", Leaf "100")] keyExpiredAt = Some v
         /\ ParseInt v = inr e)
   \/ (exists v t,
         Bucket_Get [("expired_at", Leaf "100")] keyExpiredAt = Some v
         /\ ParseInt v = inl t
         /\ unix_nanos (time_Unix t) < unix_nanos (clock 100 1)))
  /\ (forall t, - 2 ^ 63 <= t < 2 ^ 63 - unixToInternal ->
                unix_nanos (time_Unix t) = t * 10 ^ 9).
Proof.
  apply (C3_isExpired_strictly_before [("expired_at", Leaf "100")] (clock 100 1)).
  vm_compute. split; [discriminate|reflexivity].
Defined.

Example isExpired_missing : isExpired [("values", Leaf "foo")] (clock 100 0) = true.
Proof. reflexivity. Qed.

Example isExpired_unparsable :
  isExpired [("expired_at", Leaf "soon")] (clock 100 0) = true.
Proof. reflexivity. Qed.

Example isExpired_future :
  isExpired [("expired_at", Leaf "101")] (clock 100 999999999) = false.
Proof. reflexivity. Qed.

Example isExpired_same_second :
  isExpired [("expired_at", Leaf "100")] (clock 100 1) = true.
Proof. reflexivity. Qed.

(** Beyond [2^63 - 62135596800] the sum in [time.Unix] wraps around and
    the instant counts as past. *)
Example isExpired_wraps :
  isExpired [("expired_at", Leaf "9223372036854775807")] (clock 100 0) = true.
Proof. reflexivity. Qed.

(* ------------------------------------------------------------------ *)
(** ** Session identifiers *)

Section Identifier.

Lemma enc32_base32_char (b : Z) : base32_char (enc32 b).
Proof.
  unfold base32_char, enc32. apply nth_In.
  change (List.length (list_ascii_of_string encodeStd)) with 32%nat.
  change 31 with (Z.ones 5). rewrite Z.land_ones by lia.
  pose proof (Z.mod_pos_bound b (2 ^ 5) ltac:(lia)).
  change (2 ^ 5) with 32 in *. lia.
Qed.

Lemma base32_char_not_pad (c : ascii) : base32_char c -> c <> padChar.
Proof.
  unfold base32_char. intros H ->. simpl in H.
  repeat (destruct H as [H|H]; [discriminate H|]). exact H.
Qed.

Lemma all_chars_app (P : ascii -> Prop) (a b : string) :
  all_chars P a -> all_chars P b -> all_chars P (a ++ b).
Proof.
  induction a as [|c a IH]; simpl; [auto|]. intros [Hc Ha] Hb. auto.
Qed.

Lemma all_chars_impl (P Q : ascii -> Prop) (a : string) :
  (forall c, P c -> Q c) -> all_chars P a -> all_chars Q a.
Proof.
  intros HPQ. induction a as [|c a IH]; simpl; [auto|]. intros [Hc Ha]. auto.
Qed.

Lemma length_app (a b : string) :
  String.length (a ++ b) = (String.length a + String.length b)%nat.
Proof. induction a as [|c a IH]; simpl; [reflexivity|now rewrite IH]. Qed.

Lemma app_assoc (a b c : string) : ((a ++ b) ++ c = a ++ (b ++ c))%string.
Proof. induction a as [|x a IH]; simpl; [reflexivity|now rewrite IH]. Qed.

(** [TrimRight] removes a tail made of bytes of the cutset, and nothing
    of a body that has none of them. *)
Lemma TrimRight_all_cut (pad cutset : string) :
  all_chars (fun c => in_cutset c cutset = true) pad -> TrimRight pad cutset = "".
Proof.
  induction pad as [|c pad IH]; simpl; [reflexivity|].
  intros [Hc Hp]. now rewrite (IH Hp), Hc.
Qed.

Lemma TrimRight_body_pad (body pad cutset : string) :
  all_chars (fun c => in_cutset c cutset = false) body ->
  all_chars (fun c => in_cutset c cutset = true) pad ->
  TrimRight (body ++ pad) cutset = body.
Proof.
  intros Hb Hp. induction body as [|c body IH]; simpl.
  - now apply TrimRight_all_cut.
  - destruct Hb as [Hc Hb]. rewrite (IH Hb).
    destruct body; [now rewrite Hc|reflexivity].
Qed.

Ltac short_group :=
  cbn [EncodeToString str string_of_list_ascii append];
  split; [reflexivity|];
  split; [cbn [all_chars]; repeat split; apply enc32_base32_char|];
  split; [cbn [all_chars]; repeat split; reflexivity|reflexivity].

(** The text of [EncodeToString]: characters of the alphabet, one for
    every five bits, then padding. *)
Lemma EncodeToString_shape (n : nat) :
  forall src : list Z,
    (List.length src < n)%nat ->
    exists body pad,
      EncodeToString src = (body ++ pad)%string
      /\ all_chars base32_char body
      /\ all_chars (fun c => c = padChar) pad
      /\ String.length body = ((8 * List.length src + 4) / 5)%nat.
Proof.
  induction n as [|n IH]; intros src Hlen; [lia|].
  destruct src as [|s0 [|s1 [|s2 [|s3 [|s4 rest]]]]].
  - exists "", "". simpl. auto.
  - eexists (String _ (String _ "")), "======". short_group.
  - eexists (String _ (String _ (String _ (String _ "")))), "====". short_group.
  - eexists (String _ (String _ (String _ (String _ (String _ ""))))), "===".
    short_group.
  - eexists (String _ (String _ (String _ (String _ (String _ (String _ (String _ ""))))))),
      "=".
    short_group.
  - destruct (IH rest) as (body & pad & He & Hb & Hp & Hl); [simpl in Hlen; lia|].
    eexists (String _ (String _ (String _ (String _
              (String _ (String _ (String _ (String _ body)))))))), pad.
    cbn [EncodeToString str string_of_list_ascii append]. rewrite He.
    split; [reflexivity|]. split.
    { cbn [all_chars]. repeat split; try apply enc32_base32_char. exact Hb. }
    split; [exact Hp|].
    cbn [String.length List.length]. rewrite Hl.
    replace (8 * S (S (S (S (S (List.length rest))))) + 4)%nat
      with (8 * 5 + (8 * List.length rest + 4))%nat by lia.
    rewrite (Nat.div_add_l 8 5) by lia. lia.
Qed.

(** The identifier built from [n] random bytes: no padding, only
    characters of the alphabet, one for every five bits. *)
Lemma newSessionID_shape (key : list Z) :
  String.length (newSessionID key) = ((8 * List.length key + 4) / 5)%nat
  /\ all_chars base32_char (newSessionID key).
Proof.
  destruct (EncodeToString_shape (S (List.length key)) key ltac:(lia))
    as (body & pad & He & Hb & Hp & Hl).
  unfold newSessionID. rewrite He, TrimRight_body_pad.
  - now split.
  - apply all_chars_impl with (P := base32_char); [|exact Hb].
    intros c Hc. simpl. rewrite orb_false_r.
    apply Ascii.eqb_neq. now apply base32_char_not_pad.
  - apply all_chars_impl with (P := fun c => c = padChar); [|exact Hp].
    now intros c ->.
Qed.

End Identifier.

(** *** The identifier and the random bytes *)

Section Injective.

(** A check on every byte, or on every pair of bytes, by enumeration. *)
Lemma check1 (f : Z -> bool) :
  forallb f (map Z.of_nat (seq 0 256)) = true ->
  forall a, 0 <= a < 256 -> f a = true.
Proof.
  intros H a Ha. rewrite forallb_forall in H. apply H.
  replace a with (Z.of_nat (Z.to_nat a)) by lia.
  apply in_map, in_seq. lia.
Qed.

Lemma check2 (f : Z -> Z -> bool) :
  forallb (fun a => forallb (f a) (map Z.of_nat (seq 0 256))) (map Z.of_nat (seq 0 256)) = true ->
  forall a b, 0 <= a < 256 -> 0 <= b < 256 -> f a b = true.
Proof.
  intros H a b Ha Hb.
  apply (check1 (f a)); [|exact Hb].
  exact (check1 (fun a => forallb (f a) (map Z.of_nat (seq 0 256))) H a Ha).
Qed.

Ltac by_bytes1 f :=
  let s := fresh "s" in let H := fresh "H" in
  intros s H; apply Z.eqb_eq; revert s H; apply (check1 f); vm_compute; reflexivity.

Ltac by_bytes2 f :=
  let s := fresh "s" in let t := fresh "t" in
  let H := fresh "H" in let H' := fresh "H" in
  intros s t H H'; apply Z.eqb_eq; revert s t H H'; apply (check2 f);
  vm_compute; reflexivity.

(** The eight quintets of a group of five bytes, in arithmetic. *)
Lemma quintet0 : forall s0, 0 <= s0 < 256 ->
  Z.land (Z.shiftr s0 3) 31 = s0 / 8.
Proof. by_bytes1 (fun s0 => Z.land (Z.shiftr s0 3) 31 =? s0 / 8). Qed.

Lemma quintet1 : forall s0 s1, 0 <= s0 < 256 -> 0 <= s1 < 256 ->
  Z.land (Z.lor (Z.land (Z.shiftr s1 6) 31) (Z.land (u8 (Z.shiftl s0 2)) 31)) 31
  = s0 mod 8 * 4 + s1 / 64.
Proof.
  by_bytes2 (fun s0 s1 =>
    Z.land (Z.lor (Z.land (Z.shiftr s1 6) 31) (Z.land (u8 (Z.shiftl s0 2)) 31)) 31
    =? s0 mod 8 * 4 + s1 / 64).
Qed.

Lemma quintet2 : forall s1, 0 <= s1 < 256 ->
  Z.land (Z.land (Z.shiftr s1 1) 31) 31 = s1 / 2 mod 32.
Proof. by_bytes1 (fun s1 => Z.land (Z.land (Z.shiftr s1 1) 31) 31 =? s1 / 2 mod 32). Qed.

Lemma quintet3 : forall s1 s2, 0 <= s1 < 256 -> 0 <= s2 < 256 ->
  Z.land (Z.lor (Z.land (Z.shiftr s2 4) 31) (Z.land (u8 (Z.shiftl s1 4)) 31)) 31
  = s1 mod 2 * 16 + s2 / 16.
Proof.
  by_bytes2 (fun s1 s2 =>
    Z.land (Z.lor (Z.land (Z.shiftr s2 4) 31) (Z.land (u8 (Z.shiftl s1 4)) 31)) 31
    =? s1 mod 2 * 16 + s2 / 16).
Qed.

Lemma quintet4 : forall s2 s3, 0 <= s2 < 256 -> 0 <= s3 < 256 ->
  Z.land (Z.lor (Z.shiftr s3 7) (Z.land (u8 (Z.shiftl s2 1)) 31)) 31
  = s2 mod 16 * 2 + s3 / 128.
Proof.
  by_bytes2 (fun s2 s3 =>
    Z.land (Z.lor (Z.shiftr s3 7) (Z.land (u8 (Z.shiftl s2 1)) 31)) 31
    =? s2 mod 16 * 2 + s3 / 128).
Qed.

Lemma quintet5 : forall s3, 0 <= s3 < 256 ->
  Z.land (Z.land (Z.shiftr s3 2) 31) 31 = s3 / 4 mod 32.
Proof. by_bytes1 (fun s3 => Z.land (Z.land (Z.shiftr s3 2) 31) 31 =? s3 / 4 mod 32). Qed.

Lemma quintet6 : forall s3 s4, 0 <= s3 < 256 -> 0 <= s4 < 256 ->
  Z.land (Z.lor (Z.shiftr s4 5) (Z.land (u8 (Z.shiftl s3 3)) 31)) 31
  = s3 mod 4 * 8 + s4 / 32.
Proof.
  by_bytes2 (fun s3 s4 =>
    Z.land (Z.lor (Z.shiftr s4 5) (Z.land (u8 (Z.shiftl s3 3)) 31)) 31
    =? s3 mod 4 * 8 + s4 / 32).
Qed.

Lemma quintet7 : forall s4, 0 <= s4 < 256 ->
  Z.land (Z.land s4 31) 31 = s4 mod 32.
Proof. by_bytes1 (fun s4 => Z.land (Z.land s4 31) 31 =? s4 mod 32). Qed.

(** The last quintet of a short group. *)
Lemma quintet1_last : forall s0, 0 <= s0 < 256 ->
  Z.land (Z.land (u8 (Z.shiftl s0 2)) 31) 31 = s0 mod 8 * 4.
Proof. by_bytes1 (fun s0 => Z.land (Z.land (u8 (Z.shiftl s0 2)) 31) 31 =? s0 mod 8 * 4). Qed.

Lemma quintet3_last : forall s1, 0 <= s1 < 256 ->
  Z.land (Z.land (u8 (Z.shiftl s1 4)) 31) 31 = s1 mod 2 * 16.
Proof. by_bytes1 (fun s1 => Z.land (Z.land (u8 (Z.shiftl s1 4)) 31) 31 =? s1 mod 2 * 16). Qed.

Lemma quintet4_last : forall s2, 0 <= s2 < 256 ->
  Z.land (Z.land (u8 (Z.shiftl s2 1)) 31) 31 = s2 mod 16 * 2.
Proof. by_bytes1 (fun s2 => Z.land (Z.land (u8 (Z.shiftl s2 1)) 31) 31 =? s2 mod 16 * 2). Qed.

Lemma quintet6_last : forall s3, 0 <= s3 < 256 ->
  Z.land (Z.land (u8 (Z.shiftl s3 3)) 31) 31 = s3 mod 4 * 8.
Proof. by_bytes1 (fun s3 => Z.land (Z.land (u8 (Z.shiftl s3 3)) 31) 31 =? s3 mod 4 * 8). Qed.

Lemma encodeStd_NoDup : NoDup (list_ascii_of_string encodeStd).
Proof.
  cbn. repeat (constructor; [cbn; intuition discriminate|]). constructor.
Qed.

(** Two quintets with the same character are the same. *)
Lemma enc32_inj (x y : Z) : enc32 x = enc32 y -> Z.land x 31 = Z.land y 31.
Proof.
  unfold enc32. intros H.
  assert (Hx : 0 <= Z.land x 31 < 32).
  { change 31 with (Z.ones 5). rewrite Z.land_ones by lia.
    apply Z.mod_pos_bound. reflexivity. }
  assert (Hy : 0 <= Z.land y 31 < 32).
  { change 31 with (Z.ones 5). rewrite Z.land_ones by lia.
    apply Z.mod_pos_bound. reflexivity. }
  apply (proj1 (NoDup_nth _ "A"%char) encodeStd_NoDup) in H.
  - lia.
  - change (List.length (list_ascii_of_string encodeStd)) with 32%nat. lia.
  - change (List.length (list_ascii_of_string encodeStd)) with 32%nat. lia.
Qed.

Lemma enc32_not_cut (b : Z) : in_cutset (enc32 b) "=" = false.
Proof.
  simpl. rewrite orb_false_r. apply Ascii.eqb_neq.
  apply base32_char_not_pad, enc32_base32_char.
Qed.

Lemma TrimRight_cons (c : ascii) (x cutset : string) :
  in_cutset c cutset = false ->
  TrimRight (String c x) cutset = String c (TrimRight x cutset).
Proof. intros H. simpl. destruct (TrimRight x cutset); now rewrite ?H. Qed.

Lemma TrimRight_pad (x : string) :
  all_chars (fun c => c = padChar) x -> TrimRight x "=" = "".
Proof.
  intros H. apply TrimRight_all_cut.
  apply all_chars_impl with (P := fun c => c = padChar); [|exact H].
  now intros c ->.
Qed.

Lemma TrimRight_enc32 (b : Z) (x : string) :
  TrimRight (String (enc32 b) x) "=" = String (enc32 b) (TrimRight x "=").
Proof. apply TrimRight_cons, enc32_not_cut. Qed.

Lemma String_inj (c c' : ascii) (x x' : string) :
  String c x = String c' x' -> c = c' /\ x = x'.
Proof. intros H. now inversion H. Qed.

Ltac bytes_of :=
  repeat match goal with
         | H : Forall _ (_ :: _) |- _ =>
             let Hb := fresh "Hb" in
             pose proof (Forall_inv H) as Hb; cbv beta in Hb;
             apply Forall_inv_tail in H
         end.

(** From the equality of two identifiers to the equalities of their
    quintets, in arithmetic. *)
Ltac quintets H :=
  unfold newSessionID in H;
  cbn [EncodeToString str string_of_list_ascii append] in H;
  rewrite !TrimRight_enc32 in H;
  rewrite ?TrimRight_pad in H by (cbn [all_chars]; repeat split);
  repeat match type of H with
         | String _ _ = String _ _ =>
             let E := fresh "E" in
             apply String_inj in H; destruct H as [E H]; apply enc32_inj in E;
             rewrite ?quintet0, ?quintet1, ?quintet2, ?quintet3, ?quintet4,
               ?quintet5, ?quintet6, ?quintet1_last, ?quintet3_last,
               ?quintet4_last, ?quintet6_last, ?quintet7 in E by assumption
         end.

Lemma newSessionID_inj_upto (n : nat) :
  forall k1 k2 : list Z,
    (List.length k1 < n)%nat ->
    List.length k1 = List.length k2 ->
    Forall (fun b => 0 <= b < 256) k1 ->
    Forall (fun b => 0 <= b < 256) k2 ->
    newSessionID k1 = newSessionID k2 ->
    k1 = k2.
Proof.
  induction n as [|n IH]; intros k1 k2 Hn Hlen H1 H2 H; [lia|].
  destruct k1 as [|s0 [|s1 [|s2 [|s3 [|s4 r1]]]]];
    destruct k2 as [|t0 [|t1 [|t2 [|t3 [|t4 r2]]]]]; try discriminate Hlen.
  - reflexivity.
  - bytes_of. quintets H. f_equal. Z.div_mod_to_equations. lia.
  - bytes_of. quintets H.
    assert (s0 = t0 /\ s1 = t1) as [-> ->] by (Z.div_mod_to_equations; lia).
    reflexivity.
  - bytes_of. quintets H.
    assert (s0 = t0 /\ s1 = t1 /\ s2 = t2) as (-> & -> & ->)
      by (Z.div_mod_to_equations; lia).
    reflexivity.
  - bytes_of. quintets H.
    assert (s0 = t0 /\ s1 = t1 /\ s2 = t2 /\ s3 = t3) as (-> & -> & -> & ->)
      by (Z.div_mod_to_equations; lia).
    reflexivity.
  - bytes_of. quintets H.
    assert (r1 = r2) as ->.
    { apply IH; [simpl in Hn; lia|simpl in Hlen; lia|assumption|assumption|exact H]. }
    assert (s0 = t0 /\ s1 = t1 /\ s2 = t2 /\ s3 = t3 /\ s4 = t4)
      as (-> & -> & -> & -> & ->) by (Z.div_mod_to_equations; lia).
    reflexivity.
Qed.

(** The same quintets, as the bits of the bytes. *)
Lemma bits0 : forall s0, 0 <= s0 < 256 ->
  Z.land (Z.shiftr s0 3) 31 =
  quintet_value (Z.testbit s0 7) (Z.testbit s0 6) (Z.testbit s0 5) (Z.testbit s0 4)
    (Z.testbit s0 3).
Proof.
  by_bytes1 (fun s0 => Z.land (Z.shiftr s0 3) 31 =?
    quintet_value (Z.testbit s0 7) (Z.testbit s0 6) (Z.testbit s0 5) (Z.testbit s0 4)
      (Z.testbit s0 3)).
Qed.

Lemma bits1 : forall s0 s1, 0 <= s0 < 256 -> 0 <= s1 < 256 ->
  Z.land (Z.lor (Z.land (Z.shiftr s1 6) 31) (Z.land (u8 (Z.shiftl s0 2)) 31)) 31 =
  quintet_value (Z.testbit s0 2) (Z.testbit s0 1) (Z.testbit s0 0) (Z.testbit s1 7)
    (Z.testbit s1 6).
Proof.
  by_bytes2 (fun s0 s1 =>
    Z.land (Z.lor (Z.land (Z.shiftr s1 6) 31) (Z.land (u8 (Z.shiftl s0 2)) 31)) 31 =?
    quintet_value (Z.testbit s0 2) (Z.testbit s0 1) (Z.testbit s0 0) (Z.testbit s1 7)
      (Z.testbit s1 6)).
Qed.

Lemma bits2 : forall s1, 0 <= s1 < 256 ->
  Z.land (Z.land (Z.shiftr s1 1) 31) 31 =
  quintet_value (Z.testbit s1 5) (Z.testbit s1 4) (Z.testbit s1 3) (Z.testbit s1 2)
    (Z.testbit s1 1).
Proof.
  by_bytes1 (fun s1 => Z.land (Z.land (Z.shiftr s1 1) 31) 31 =?
    quintet_value (Z.testbit s1 5) (Z.testbit s1 4) (Z.testbit s1 3) (Z.testbit s1 2)
      (Z.testbit s1 1)).
Qed.

Lemma bits3 : forall s1 s2, 0 <= s1 < 256 -> 0 <= s2 < 256 ->
  Z.land (Z.lor (Z.land (Z.shiftr s2 4) 31) (Z.land (u8 (Z.shiftl s1 4)) 31)) 31 =
  quintet_value (Z.testbit s1 0) (Z.testbit s2 7) (Z.testbit s2 6) (Z.testbit s2 5)
    (Z.testbit s2 4).
Proof.
  by_bytes2 (fun s1 s2 =>
    Z.land (Z.lor (Z.land (Z.shiftr s2 4) 31) (Z.land (u8 (Z.shiftl s1 4)) 31)) 31 =?
    quintet_value (Z.testbit s1 0) (Z.testbit s2 7) (Z.testbit s2 6) (Z.testbit s2 5)
      (Z.testbit s2 4)).
Qed.

Lemma bits4 : forall s2 s3, 0 <= s2 < 256 -> 0 <= s3 < 256 ->
  Z.land (Z.lor (Z.shiftr s3 7) (Z.land (u8 (Z.shiftl s2 1)) 31)) 31 =
  quintet_value (Z.testbit s2 3) (Z.testbit s2 2) (Z.testbit s2 1) (Z.testbit s2 0)
    (Z.testbit s3 7).
Proof.
  by_bytes2 (fun s2 s3 =>
    Z.land (Z.lor (Z.shiftr s3 7) (Z.land (u8 (Z.shiftl s2 1)) 31)) 31 =?
    quintet_value (Z.testbit s2 3) (Z.testbit s2 2) (Z.testbit s2 1) (Z.testbit s2 0)
      (Z.testbit s3 7)).
Qed.

Lemma bits5 : forall s3, 0 <= s3 < 256 ->
  Z.land (Z.land (Z.shiftr s3 2) 31) 31 =
  quintet_value (Z.testbit s3 6) (Z.testbit s3 5) (Z.testbit s3 4) (Z.testbit s3 3)
    (Z.testbit s3 2).
Proof.
  by_bytes1 (fun s3 => Z.land (Z.land (Z.shiftr s3 2) 31) 31 =?
    quintet_value (Z.testbit s3 6) (Z.testbit s3 5) (Z.testbit s3 4) (Z.testbit s3 3)
      (Z.testbit s3 2)).
Qed.

Lemma bits6 : forall s3 s4, 0 <= s3 < 256 -> 0 <= s4 < 256 ->
  Z.land (Z.lor (Z.shiftr s4 5) (Z.land (u8 (Z.shiftl s3 3)) 31)) 31 =
  quintet_value (Z.testbit s3 1) (Z.testbit s3 0) (Z.testbit s4 7) (Z.testbit s4 6)
    (Z.testbit s4 5).
Proof.
  by_bytes2 (fun s3 s4 =>
    Z.land (Z.lor (Z.shiftr s4 5) (Z.land (u8 (Z.shiftl s3 3)) 31)) 31 =?
    quintet_value (Z.testbit s3 1) (Z.testbit s3 0) (Z.testbit s4 7) (Z.testbit s4 6)
      (Z.testbit s4 5)).
Qed.

Lemma bits7 : forall s4, 0 <= s4 < 256 ->
  Z.land (Z.land s4 31) 31 =
  quintet_value (Z.testbit s4 4) (Z.testbit s4 3) (Z.testbit s4 2) (Z.testbit s4 1)
    (Z.testbit s4 0).
Proof.
  by_bytes1 (fun s4 => Z.land (Z.land s4 31) 31 =?
    quintet_value (Z.testbit s4 4) (Z.testbit s4 3) (Z.testbit s4 2) (Z.testbit s4 1)
      (Z.testbit s4 0)).
Qed.

Lemma bits1_last : forall s0, 0 <= s0 < 256 ->
  Z.land (Z.land (u8 (Z.shiftl s0 2)) 31) 31 =
  quintet_value (Z.testbit s0 2) (Z.testbit s0 1) (Z.testbit s0 0) false false.
Proof.
  by_bytes1 (fun s0 => Z.land (Z.land (u8 (Z.shiftl s0 2)) 31) 31 =?
    quintet_value (Z.testbit s0 2) (Z.testbit s0 1) (Z.testbit s0 0) false false).
Qed.

Lemma bits3_last : forall s1, 0 <= s1 < 256 ->
  Z.land (Z.land (u8 (Z.shiftl s1 4)) 31) 31 =
  quintet_value (Z.testbit s1 0) false false false false.
Proof.
  by_bytes1 (fun s1 => Z.land (Z.land (u8 (Z.shiftl s1 4)) 31) 31 =?
    quintet_value (Z.testbit s1 0) false false false false).
Qed.

Lemma bits4_last : forall s2, 0 <= s2 < 256 ->
  Z.land (Z.land (u8 (Z.shiftl s2 1)) 31) 31 =
  quintet_value (Z.testbit s2 3) (Z.testbit s2 2) (Z.testbit s2 1) (Z.testbit s2 0) false.
Proof.
  by_bytes1 (fun s2 => Z.land (Z.land (u8 (Z.shiftl s2 1)) 31) 31 =?
    quintet_value (Z.testbit s2 3) (Z.testbit s2 2) (Z.testbit s2 1) (Z.testbit s2 0)
      false).
Qed.

Lemma bits6_last : forall s3, 0 <= s3 < 256 ->
  Z.land (Z.land (u8 (Z.shiftl s3 3)) 31) 31 =
  quintet_value (Z.testbit s3 1) (Z.testbit s3 0) false false false.
Proof.
  by_bytes1 (fun s3 => Z.land (Z.land (u8 (Z.shiftl s3 3)) 31) 31 =?
    quintet_value (Z.testbit s3 1) (Z.testbit s3 0) false false false).
Qed.

Lemma enc32_letter (x q : Z) : Z.land x 31 = q -> enc32 x = base32_letter q.
Proof. intros <-. reflexivity. Qed.

Lemma String_eq (c c' : ascii) (x x' : string) :
  c = c' -> x = x' -> String c x = String c' x'.
Proof. now intros -> ->. Qed.

(** Letter by letter: the character of the code is the letter of the
    five bits. *)
Ltac letters :=
  repeat (apply String_eq;
          [apply enc32_letter;
           first [apply bits0; assumption | apply bits1; assumption
                 | apply bits2; assumption | apply bits3; assumption
                 | apply bits4; assumption | apply bits5; assumption
                 | apply bits6; assumption | apply bits1_last; assumption
                 | apply bits3_last; assumption | apply bits4_last; assumption
                 | apply bits6_last; assumption | apply bits7; assumption]|]).

Ltac both_sides :=
  unfold newSessionID;
  cbn [EncodeToString str string_of_list_ascii append];
  rewrite !TrimRight_enc32;
  rewrite ?TrimRight_pad by (cbn [all_chars]; repeat split);
  cbn [base32_unpadded key_bits flat_map byte_bits app quintets_of_bits map
       string_of_list_ascii].

(** The identifier is base 32 without padding, bit for bit. *)
Lemma newSessionID_base32_upto (n : nat) :
  forall key : list Z,
    (List.length key < n)%nat ->
    Forall (fun b => 0 <= b < 256) key ->
    newSessionID key = base32_unpadded key.
Proof.
  induction n as [|n IH]; intros key Hn Hkey; [lia|].
  destruct key as [|s0 [|s1 [|s2 [|s3 [|s4 rest]]]]].
  - reflexivity.
  - bytes_of. both_sides. letters. reflexivity.
  - bytes_of. both_sides. letters. reflexivity.
  - bytes_of. both_sides. letters. reflexivity.
  - bytes_of. both_sides. letters. reflexivity.
  - bytes_of. both_sides. letters.
    apply (IH rest); [simpl in Hn; lia|assumption].
Qed.

Lemma all_chars_all_bytes (P : ascii -> Prop) (p : ascii -> bool) (x : string) :
  (forall c, P c -> p c = true) -> all_chars P x -> all_bytes p x = true.
Proof.
  intros HP. induction x as [|c x IH]; simpl; [reflexivity|].
  intros [Hc Hx]. now rewrite (HP c Hc), (IH Hx).
Qed.

(** The letters of base 32 are bytes that a cookie value carries. *)
Lemma base32_char_value_byte (c : ascii) :
  base32_char c -> validCookieValueByte c = true.
Proof.
  unfold base32_char. simpl. intros H.
  repeat (destruct H as [<-|H]; [reflexivity|]). contradiction.
Qed.

End Injective.

Section SaveIdentifier.

Variable s : BoltStore.

(** [Save] gives a session without identifier the one built from the
    random bytes. *)
Lemma Save_assigns_ID (now : Time) (key : list Z) (db db' : DB)
    (w w' : ResponseWriter) (session session' : Session) (err : option error) :
  0 < MaxAge (sOptions session) ->
  ID session = "" ->
  Save s now key db w session = Return (db', w', session', err) ->
  ID session' = newSessionID key.
Proof.
  intros Hage Hid H. unfold Save in H.
  replace (MaxAge (sOptions session) <=? 0) with false in H
    by (symmetry; apply Z.leb_gt; lia).
  rewrite Hid in H. simpl in H.
  destruct (save s now db _) as [[db1 [e|]]|]; simpl in H; try discriminate.
  - now inversion H.
  - destruct (EncodeMulti _ _ _); inversion H; reflexivity.
Qed.

(** When the random source fails, [GenerateRandomKey] returns nil, the
    identifier is empty and the save fails before anything is written:
    no record, no cookie. *)
Lemma Save_without_entropy (now : Time) (db : DB) (w : ResponseWriter)
    (session : Session) :
  0 < MaxAge (sOptions session) ->
  ID session = "" ->
  Tx_Bucket (db_tx db) (BucketName (bs_options s)) <> None ->
  exists e, Save s now [] db w session = Return (db, w, session, Some e).
Proof.
  intros Hage Hid Hroot. unfold Save.
  replace (MaxAge (sOptions session) <=? 0) with false
    by (symmetry; apply Z.leb_gt; lia).
  rewrite Hid. simpl.
  assert (Hs : set_ID session (newSessionID []) = session).
  { destruct session; simpl in *; subst; reflexivity. }
  rewrite Hs. unfold save, DB_Update.
  destruct (Serialize _ _) as [b|e]; simpl; [|eauto].
  destruct (negb _ && _); simpl; [eauto|].
  destruct (db_open db); simpl; [|eauto].
  destruct (Tx_Bucket _ _); [|congruence].
  rewrite Hid. simpl. eauto.
Qed.

(** The identifier of the session after [Save] on the way of [save]:
    the one built from the random bytes if it had none, else its own. *)
Lemma Save_ID (now : Time) (key : list Z) (db db' : DB)
    (w w' : ResponseWriter) (session session' : Session) (err : option error) :
  0 < MaxAge (sOptions session) ->
  Save s now key db w session = Return (db', w', session', err) ->
  ID session' = (if String.eqb (ID session) "" then newSessionID key else ID session).
Proof.
  intros Hage H. unfold Save in H.
  replace (MaxAge (sOptions session) <=? 0) with false in H
    by (symmetry; apply Z.leb_gt; lia).
  destruct (save s now db _) as [[db1 [e|]]|]; simpl in H; try discriminate.
  - inversion H. now destruct (String.eqb (ID session) "").
  - destruct (EncodeMulti _ _ _); inversion H; now destruct (String.eqb (ID session) "").
Qed.

(** Without random bytes [Save] of a session without identifier never
    returns nil, whatever the database: nothing is stored and no cookie
    is set. *)
Lemma Save_without_entropy_any (now : Time) (db : DB) (w : ResponseWriter)
    (session : Session) :
  0 < MaxAge (sOptions session) ->
  ID session = "" ->
  Save s now [] db w session = Panic
  \/ exists e, Save s now [] db w session = Return (db, w, session, Some e).
Proof.
  intros Hage Hid. unfold Save.
  replace (MaxAge (sOptions session) <=? 0) with false
    by (symmetry; apply Z.leb_gt; lia).
  rewrite Hid. simpl.
  assert (Hs : set_ID session (newSessionID []) = session).
  { destruct session; simpl in *; subst; reflexivity. }
  rewrite Hs. unfold save, DB_Update.
  destruct (Serialize _ _) as [b|e]; simpl; [|eauto].
  destruct (negb _ && _); simpl; [eauto|].
  destruct (db_open db); simpl; [|eauto].
  destruct (Tx_Bucket _ _); [|now left].
  rewrite Hid. simpl. eauto.
Qed.

(** On a store at work the error is that of the bucket without a name. *)
Lemma Save_without_entropy_error (now : Time) (db : DB) (w : ResponseWriter)
    (session : Session) (b : string) :
  0 < MaxAge (sOptions session) ->
  ID session = "" ->
  db_open db = true ->
  Tx_Bucket (db_tx db) (BucketName (bs_options s)) <> None ->
  Serialize (Serializer (bs_options s)) session = inl b ->
  (MaxLength (bs_options s) = 0 \/ len b <= MaxLength (bs_options s)) ->
  Save s now [] db w session =
  Return (db, w, session,
          Some (Wrap "save session to store error"
                  (Wrap "create session bucket error" ErrBucketNameRequired))).
Proof.
  intros Hage Hid Hopen Hroot Hser Hfit. unfold Save.
  replace (MaxAge (sOptions session) <=? 0) with false
    by (symmetry; apply Z.leb_gt; lia).
  rewrite Hid. simpl.
  assert (Hs : set_ID session (newSessionID []) = session).
  { destruct session; simpl in *; subst; reflexivity. }
  rewrite Hs. unfold save, DB_Update. rewrite Hser.
  replace (negb (MaxLength (bs_options s) =? 0) && (len b >? MaxLength (bs_options s)))
    with false.
  2:{ symmetry. apply andb_false_iff. destruct Hfit as [H0|Hle].
      - left. apply negb_false_iff. now apply Z.eqb_eq.
      - right. rewrite Z.gtb_ltb. now apply Z.ltb_ge. }
  rewrite Hopen.
  destruct (Tx_Bucket _ _); [|congruence].
  rewrite Hid. reflexivity.
Qed.

End SaveIdentifier.

(** C9, as it is stated, fails.  [securecookie.GenerateRandomKey(32)]
    (v1.1.1) hands out 32 bytes, or nil when reading the random source
    fails, and [Save] does not look at which.  With nil the identifier
    that [Save] builds is the empty string, not one of 52 characters,
    and the run is not ended: [Save] returns, with the error of [save]. *)
Lemma C9_counterexample :
  ~ (forall (key : list Z) (s : BoltStore) (now : Time) (db : DB)
            (w : ResponseWriter) (session : Session),
       List.length key = 32%nat \/ key = [] ->
       0 < MaxAge (sOptions session) ->
       ID session = "" ->
       match Save s now key db w session with
       | Panic => True
       | Return (_, _, session', _) =>
           String.length (ID session') = 52%nat
           /\ all_chars base32_char (ID session')
       end).
Proof.
  intros H.
  specialize (H [] (Sample.store 0) (clock 200 5) Sample.db1 []
                (mkSession "" [("k", "v")] (mkOptions "/" "" 3600 false false) true "sid")
                (or_intror eq_refl) eq_refl eq_refl).
  destruct H as [H _]. discriminate H.
Qed.

(** C9, amended.  The identifier that [Save] builds from 32 random
    bytes is their base 32 without padding, bit for bit: 52 characters
    over [A]-[Z] and [2]-[7], none of them [=], all of them bytes that a
    cookie value carries, and a name under which a bucket can be made.
    Different keys give different identifiers.  On the way of [save],
    [Save] gives this identifier to a session that has none and leaves
    a session its own.  Building the identifier has no error path at
    all: when the random source fails, [GenerateRandomKey] hands out no
    bytes, the identifier is empty, and it is [save] that fails; [Save]
    then never returns nil, stores nothing and sets no cookie, and on a
    store at work it returns the error of the bucket without a name. *)
Theorem C9_newSessionID (key : list Z) :
  List.length key = 32%nat ->
  Forall (fun b => 0 <= b < 256) key ->
  newSessionID key = base32_unpadded key
  /\ String.length (newSessionID key) = 52%nat
  /\ all_chars base32_char (newSessionID key)
  /\ all_chars (fun c => c <> "="%char) (newSessionID key)
  /\ all_bytes validCookieValueByte (newSessionID key) = true
  /\ (forall b,
        (forall v, seek b (newSessionID key) <> Some (Leaf v)) ->
        exists b1 c, Bucket_CreateBucketIfNotExists b (newSessionID key) = inl (b1, c))
  /\ (forall key',
        List.length key' = 32%nat ->
        Forall (fun b => 0 <= b < 256) key' ->
        newSessionID key' = newSessionID key -> key' = key)
  /\ (forall s now db db' w w' session session' err,
        0 < MaxAge (sOptions session) ->
        Save s now key db w session = Return (db', w', session', err) ->
        ID session' =
        (if String.eqb (ID session) "" then newSessionID key else ID session))
  /\ newSessionID [] = ""
  /\ (forall s now db w session,
        0 < MaxAge (sOptions session) ->
        ID session = "" ->
        Save s now [] db w session = Panic
        \/ exists e, Save s now [] db w session = Return (db, w, session, Some e))
  /\ (forall s now db w session b,
        0 < MaxAge (sOptions session) ->
        ID session = "" ->
        db_open db = true ->
        Tx_Bucket (db_tx db) (BucketName (bs_options s)) <> None ->
        Serialize (Serializer (bs_options s)) session = inl b ->
        MaxLength (bs_options s) = 0 \/ len b <= MaxLength (bs_options s) ->
        Save s now [] db w session =
        Return (db, w, session,
                Some (Wrap "save session to store error"
                        (Wrap "create session bucket error" ErrBucketNameRequired)))).
Proof.
  intros Hlen Hkey.
  destruct (newSessionID_shape key) as [Hl Hb]. rewrite Hlen in Hl.
  change ((8 * 32 + 4) / 5)%nat with 52%nat in Hl.
  split.
  { apply (newSessionID_base32_upto (S (List.length key))); [lia|exact Hkey]. }
  split; [exact Hl|]. split; [exact Hb|]. split.
  { apply all_chars_impl with (P := base32_char); [|exact Hb].
    exact base32_char_not_pad. }
  split.
  { apply all_chars_all_bytes with (P := base32_char); [|exact Hb].
    exact base32_char_value_byte. }
  split.
  { intros b Hplain. unfold Bucket_CreateBucketIfNotExists, len.
    rewrite Hl. cbn [Z.of_nat Z.eqb Pos.of_succ_nat].
    destruct (seek b (newSessionID key)) as [[v|c]|] eqn:Hk; eauto.
    exfalso. exact (Hplain v eq_refl). }
  split.
  { intros key' Hlen' Hkey' Heq.
    apply (newSessionID_inj_upto (S (List.length key'))); [lia|congruence|assumption..]. }
  split.
  { intros s now db db' w w' session session' err. apply Save_ID. }
  split; [reflexivity|].
  split.
  { intros s now db w session. apply Save_without_entropy_any. }
  intros s now db w session b. apply Save_without_entropy_error.
Qed.

Lemma C9_newSessionID_witness :
  let key := repeat 255 32 in
  newSessionID key = base32_unpadded key
  /\ String.length (newSessionID key) = 52%nat
  /\ all_chars base32_char (newSessionID key)
  /\ all_chars (fun c => c <> "="%char) (newSessionID key)
  /\ all_bytes validCookieValueByte (newSessionID key) = true
  /\ (forall b,
        (forall v, seek b (newSessionID key) <> Some (Leaf v)) ->
        exists b1 c, Bucket_CreateBucketIfNotExists b (newSessionID key) = inl (b1, c))
  /\ (forall key',
        List.length key' = 32%nat ->
        Forall (fun b => 0 <= b < 256) key' ->
        newSessionID key' = newSessionID key -> key' = key)
  /\ (forall s now db db' w w' session session' err,
        0 < MaxAge (sOptions session) ->
        Save s now key db w session = Return (db', w', session', err) ->
        ID session' =
        (if String.eqb (ID session) "" then newSessionID key else ID session))
  /\ newSessionID [] = ""
  /\ (forall s now db w session,
        0 < MaxAge (sOptions session) ->
        ID session = "" ->
        Save s now [] db w session = Panic
        \/ exists e, Save s now [] db w session = Return (db, w, session, Some e))
  /\ (forall s now db w session b,
        0 < MaxAge (sOptions session) ->
        ID session = "" ->
        db_open db = true ->
        Tx_Bucket (db_tx db) (BucketName (bs_options s)) <> None ->
        Serialize (Serializer (bs_options s)) session = inl b ->
        MaxLength (bs_options s) = 0 \/ len b <= MaxLength (bs_options s) ->
        Save s now [] db w session =
        Return (db, w, session,
                Some (Wrap "save session to store error"
                        (Wrap "create session bucket error" ErrBucketNameRequired)))).
Proof.
  intros key.
  apply (C9_newSessionID (repeat 255 32)).
  - reflexivity.
  - repeat constructor; lia.
Defined.

(** The bits of a key, read five by five: [0xFB 0xF0] is
    [11111 01111 11000 0], the letters [7], [P], [Y], [A]. *)
Example newSessionID_bits : newSessionID [251; 240] = "7PYA".
Proof. reflexivity. Qed.

Example base32_unpadded_bits : base32_unpadded [251; 240] = "7PYA".
Proof. reflexivity. Qed.

Example newSessionID_ff :
  newSessionID (repeat 255 32) = "777777777777777777777777777777777777777777777777777Q".
Proof. reflexivity. Qed.

Example newSessionID_nil : newSessionID [] = "".
Proof. reflexivity. Qed.

Example Save_new_session :
  Save (Sample.store 0) (clock 200 5) (repeat 0 32) Sample.db1 []
    (mkSession "" [("k", "v")] (mkOptions "/" "" 3600 false false) true "sid") =
  Return
    (mkDB true
       [("sessions",
         Nested [("AAAAAAAAAAAAAAAAAAAAAAAAAAAAAAAAAAAAAAAAAAAAAAAAAAAA",
                  Sample.record "v" "3800");
                 ("S1", Sample.record "foo" "100")])],
     [mkCookie "sid" "sid:AAAAAAAAAAAAAAAAAAAAAAAAAAAAAAAAAAAAAAAAAAAAAAAAAAAA"
        "/" "" 3600 false false],
     mkSession "AAAAAAAAAAAAAAAAAAAAAAAAAAAAAAAAAAAAAAAAAAAAAAAAAAAA" [("k", "v")]
       (mkOptions "/" "" 3600 false false) true "sid",
     None).
Proof. reflexivity. Qed.

Example Save_without_random_bytes :
  Save (Sample.store 0) (clock 200 5) [] Sample.db1 []
    (mkSession "" [("k", "v")] (mkOptions "/" "" 3600 false false) true "sid") =
  Return (Sample.db1, [],
          mkSession "" [("k", "v")] (mkOptions "/" "" 3600 false false) true "sid",
          Some (Wrap "save session to store error"
                  (Wrap "create session bucket error" ErrBucketNameRequired))).
Proof. reflexivity. Qed.

(* ------------------------------------------------------------------ *)
(** ** Creating the store *)

(** After [NewStoreWithDB] the root bucket is there, which the theorems
    above on [load], [New] and [Save] ask for. *)
Lemma NewStoreWithDB_root (mk : list string -> Codecs) (db db' : DB)
    (opts : Options) (s : BoltStore) :
  NewStoreWithDB mk db opts = Return (db', Some s, None) ->
  bs_options s = opts
  /\ Tx_Bucket (db_tx db') (BucketName opts) <> None.
Proof.
  unfold NewStoreWithDB, DB_Update, Tx_CreateBucketIfNotExists.
  destruct (KeyPairs opts); [|discriminate].
  destruct (db_open db); simpl; [|discriminate].
  destruct (Bucket_CreateBucketIfNotExists (db_tx db) (BucketName opts))
    as [[tx' c]|e] eqn:Hc; simpl; [|discriminate].
  intros H. inversion H; subst. simpl. split; [reflexivity|].
  destruct (CreateBucketIfNotExists_inl _ _ _ _ Hc) as (Hk & _).
  unfold Tx_Bucket, Bucket_Bucket. rewrite Hk. discriminate.
Qed.

(* ------------------------------------------------------------------ *)
(** * Further properties of the store *)

(** ** Saving, then loading *)

Section RoundTrip.

Variable s : BoltStore.

(** [load] on a database in which the session bucket holds [data]. *)
Lemma load_of_values (db : DB) (x : Session) (root bucket : Bucket) (data : string) :
  db_open db = true ->
  Tx_Bucket (db_tx db) (BucketName (bs_options s)) = Some root ->
  Bucket_Bucket root (ID x) = Some bucket ->
  Bucket_Get bucket keyValues = Some data ->
  load s db x =
  Return (fst (Deserialize (Serializer (bs_options s)) data x),
          is_nil (snd (Deserialize (Serializer (bs_options s)) data x)),
          snd (Deserialize (Serializer (bs_options s)) data x)).
Proof.
  intros Hopen Hroot Hb Hg. unfold load, DB_View.
  rewrite Hopen, Hroot, Hb, Hg.
  now destruct (Deserialize _ _ _) as [x' [e|]].
Qed.

End RoundTrip.

(** X1.  What a successful [Save] wrote is what [load] reads: for every
    session handle with the identifier saved, [load] on the database
    after the save hands the bytes of [Serialize] to [Deserialize] and
    answers [true] exactly when [Deserialize] returns nil. *)
Theorem X1_Save_then_load (s : BoltStore) (now : Time) (key : list Z)
    (db db' : DB) (w w' : ResponseWriter) (session session' x : Session) :
  0 < MaxAge (sOptions session) ->
  Save s now key db w session = Return (db', w', session', None) ->
  ID x = ID session' ->
  exists b,
    Serialize (Serializer (bs_options s)) session' = inl b
    /\ load s db' x =
       Return (fst (Deserialize (Serializer (bs_options s)) b x),
               is_nil (snd (Deserialize (Serializer (bs_options s)) b x)),
               snd (Deserialize (Serializer (bs_options s)) b x)).
Proof.
  intros Hage HS Hid.
  destruct (Save_success s now key db db' w w' session session' Hage HS)
    as (_ & Hsave & _).
  destruct (save_success s now db db' session' Hsave)
    as (root & root' & b & bucket' & _ & _ & Hopen & Hroot & Hs & Hb & Hg & _).
  exists b. split; [exact Hs|].
  apply (load_of_values s db' x root' bucket' b Hopen Hroot); [|exact Hg].
  now rewrite Hid.
Qed.

Lemma X1_Save_then_load_witness :
  exists b,
    Serialize (Serializer (bs_options (Sample.store 0)))
      (mkSession "S7" [("k", "bar")] (mkOptions "/" "" 3600 false false) true "sid")
    = inl b
    /\ load (Sample.store 0)
         (mkDB true [("sessions", Nested [("S1", Sample.record "foo" "100");
                                          ("S7", Sample.record "bar" "3800")])])
         (Sample.session_of "S7") =
       Return (fst (Deserialize (Serializer (bs_options (Sample.store 0))) b
                      (Sample.session_of "S7")),
               is_nil (snd (Deserialize (Serializer (bs_options (Sample.store 0))) b
                              (Sample.session_of "S7"))),
               snd (Deserialize (Serializer (bs_options (Sample.store 0))) b
                      (Sample.session_of "S7"))).
Proof.
  apply (X1_Save_then_load (Sample.store 0) (clock 200 5) [] Sample.db1
           (mkDB true [("sessions", Nested [("S1", Sample.record "foo" "100");
                                            ("S7", Sample.record "bar" "3800")])])
           [] [mkCookie "sid" "sid:S7" "/" "" 3600 false false]
           (mkSession "S7" [("k", "bar")] (mkOptions "/" "" 3600 false false) true "sid")
           (mkSession "S7" [("k", "bar")] (mkOptions "/" "" 3600 false false) true "sid")
           (Sample.session_of "S7")); reflexivity.
Defined.

(** [http.SetCookie] adds the cookie exactly for a valid name. *)
Lemma SetCookie_cases (w : ResponseWriter) (c : Cookie) :
  (isCookieNameValid (cName c) = true -> SetCookie w c = (w ++ [c])%list)
  /\ (isCookieNameValid (cName c) = false -> SetCookie w c = w).
Proof.
  unfold SetCookie. destruct (isCookieNameValid (cName c)); split; intros H;
    try reflexivity; discriminate H.
Qed.


Section CookieBack.

Variable s : BoltStore.


End CookieBack.



(** ** A saved record under the reaper's classification *)

Section Freshness.

Lemma unix_nanos_clock (sec n : Z) : unix_nanos (clock sec n) = sec * 10 ^ 9 + n.
Proof. unfold unix_nanos, clock. cbn [t_sec t_nsec]. lia. Qed.

(** A bucket whose [expired_at] is the text of an int64 [e] is expired
    at a scan exactly when the instant of [e] is before the scan. *)
Lemma isExpired_of_FormatInt (bucket : Bucket) (e : Z) (t : Time) :
  - 2 ^ 63 <= e < 2 ^ 63 ->
  Bucket_Get bucket keyExpiredAt = Some (FormatInt e) ->
  isExpired bucket t = Time_Before (time_Unix e) t.
Proof.
  intros He Hg. unfold isExpired. rewrite Hg.
  now rewrite (ParseInt_FormatInt e He).
Qed.

End Freshness.

(** X3.  The record that a successful [Save] writes at the instant
    [sec.n] with the lifetime [SessionExpire] is expired for the read
    pass of the reaper exactly at the scans after the whole second
    [(sec.n + SessionExpire)] rounded down: earlier scans, and the scan
    at that very second sharp, leave it alone. *)
Theorem X3_saved_record_expiry (s : BoltStore) (sec n : Z) (key : list Z)
    (db db' : DB) (w w' : ResponseWriter) (session session' : Session) :
  0 < MaxAge (sOptions session) ->
  0 <= sec < 2 ^ 62 -> 0 <= n < 10 ^ 9 ->
  - 2 ^ 63 <= SessionExpire (bs_options s) < 2 ^ 63 ->
  Save s (clock sec n) key db w session = Return (db', w', session', None) ->
  exists root' bucket',
    Tx_Bucket (db_tx db') (BucketName (bs_options s)) = Some root'
    /\ Bucket_Bucket root' (ID session') = Some bucket'
    /\ forall sec' n',
         0 <= n' < 10 ^ 9 ->
         (isExpired bucket' (clock sec' n') = true <->
          (sec * 10 ^ 9 + n + SessionExpire (bs_options s)) / 10 ^ 9 * 10 ^ 9
          < sec' * 10 ^ 9 + n').
Proof.
  intros Hage Hsec Hn Hd HS.
  destruct (Save_success s (clock sec n) key db db' w w' session session' Hage HS)
    as (_ & Hsave & _).
  destruct (save_success s (clock sec n) db db' session' Hsave)
    as (root & root' & b & bucket' & _ & _ & _ & Hroot & _ & Hb & _ & Hg & _).
  exists root', bucket'. split; [exact Hroot|]. split; [exact Hb|].
  intros sec' n' Hn'.
  rewrite (Time_Unix_Add_clock sec n _ Hsec Hn Hd) in Hg.
  set (e := (sec * 10 ^ 9 + n + SessionExpire (bs_options s)) / 10 ^ 9) in *.
  assert (He : - 10 ^ 10 <= e <= 2 ^ 62 + 10 ^ 10).
  { unfold e. change (2 ^ 62) with 4611686018427387904 in *.
    change (2 ^ 63) with 9223372036854775808 in *.
    change (10 ^ 9) with 1000000000 in *. change (10 ^ 10) with 10000000000.
    split.
    - apply Z.div_le_lower_bound; lia.
    - apply Z.lt_succ_r, Z.div_lt_upper_bound; lia. }
  change (2 ^ 62) with 4611686018427387904 in He.
  change (10 ^ 10) with 10000000000 in He.
  rewrite (isExpired_of_FormatInt bucket' e (clock sec' n'));
    [|change (2 ^ 63) with 9223372036854775808; lia|exact Hg].
  rewrite Time_Before_nanos;
    [|simpl; change (10 ^ 9) with 1000000000; lia|exact Hn'].
  rewrite time_Unix_nanos, unix_nanos_clock; [reflexivity|].
  unfold unixToInternal. change (2 ^ 63) with 9223372036854775808. lia.
Qed.

Lemma X3_saved_record_expiry_witness :
  exists root' bucket',
    Tx_Bucket
      (db_tx (mkDB true [("sessions", Nested [("S1", Sample.record "foo" "100");
                                              ("S7", Sample.record "bar" "3800")])]))
      (BucketName (bs_options (Sample.store 0))) = Some root'
    /\ Bucket_Bucket root' "S7" = Some bucket'
    /\ forall sec' n',
         0 <= n' < 10 ^ 9 ->
         (isExpired bucket' (clock sec' n') = true <->
          (200 * 10 ^ 9 + 5 + SessionExpire (bs_options (Sample.store 0))) / 10 ^ 9 * 10 ^ 9
          < sec' * 10 ^ 9 + n').
Proof.
  apply (X3_saved_record_expiry (Sample.store 0) 200 5 [] Sample.db1
           (mkDB true [("sessions", Nested [("S1", Sample.record "foo" "100");
                                            ("S7", Sample.record "bar" "3800")])])
           [] [mkCookie "sid" "sid:S7" "/" "" 3600 false false]
           (mkSession "S7" [("k", "bar")] (mkOptions "/" "" 3600 false false) true "sid")
           (mkSession "S7" [("k", "bar")] (mkOptions "/" "" 3600 false false) true "sid"));
    try reflexivity; vm_compute; split; congruence.
Defined.

(** ** What the reaper does to the store *)

Section ReaperOutcome.

Variable s : BoltStore.

(** The outcome of a tick in full: the database is as before; a write
    pass that is started is refused by [Delete]; a tick that starts none
    logs nothing, or the error of [db.View]. *)
Lemma tick_outcome (now_at : string -> Time) (db : DB) :
  exists log started,
    tick s now_at db = Return (db, log, started)
    /\ (started = true -> log = [LogRemove ErrIncompatibleValue])
    /\ (started = false -> log = [] \/ log = [LogObtain ErrDatabaseNotOpen]).
Proof.
  unfold tick, read_pass, DB_View.
  destruct (db_open db) eqn:Hopen; simpl.
  2:{ exists [LogObtain ErrDatabaseNotOpen], false. repeat split; auto; discriminate. }
  destruct (Tx_Bucket (db_tx db) (BucketName (bs_options s))) as [bucket|] eqn:Hroot;
    simpl.
  2:{ exists [], false. repeat split; auto; discriminate. }
  pose proof (ForEach_visit_nested s bucket now_at bucket (false, []) (Forall_nil _)) as HF.
  destruct (Bucket_ForEach bucket (visit s bucket now_at) (false, []))
    as [[e keys] err]. simpl in HF. simpl.
  destruct keys as [|k keys]; simpl.
  { exists [], false. repeat split; auto; discriminate. }
  inversion HF as [|? ? Hk _]; subst.
  unfold write_pass, DB_Update. rewrite Hopen, Hroot.
  rewrite (delete_keys_nested bucket k keys Hk). simpl.
  exists [LogRemove ErrIncompatibleValue], true. repeat split; auto; discriminate.
Qed.

Lemma worker_outcome (events : list event) :
  forall db, exists log, worker s events db = Return (db, log, existsb is_done events).
Proof.
  induction events as [|e rest IH]; intros db; simpl; [eauto|].
  destruct e as [|now_at]; simpl; [eauto|].
  destruct (tick_outcome now_at db) as (log & started & Ht & _).
  rewrite Ht. simpl. destruct (IH db) as [log' Hw]. rewrite Hw. simpl. eauto.
Qed.

Lemma worker_stops_at_done (before after : list event) (db : DB) :
  worker s (before ++ CtxDone :: after) db = worker s (before ++ [CtxDone]) db.
Proof.
  revert db. induction before as [|e rest IH]; intros db; simpl; [reflexivity|].
  destruct e as [|now_at]; [reflexivity|].
  destruct (tick s now_at db) as [[[db' log] started]|]; simpl; [|reflexivity].
  now rewrite IH.
Qed.

(** A key of a bucket without duplicate keys is found with its entry. *)
Lemma seek_In_NoDup (b : Bucket) (k : string) (n : node) :
  NoDup (map fst b) -> In (k, n) b -> seek b k = Some n.
Proof.
  induction b as [|[k0 n0] rest IH]; simpl; [contradiction|].
  intros Hnd [Heq|Hin].
  - inversion Heq; subst. now rewrite String.eqb_refl.
  - inversion Hnd as [|? ? Hnotin Hnd']; subst.
    destruct (String.eqb k k0) eqn:E.
    + apply String.eqb_eq in E. subst k0. exfalso. apply Hnotin.
      change k with (fst (k, n)). now apply in_map.
    + now apply IH.
Qed.

(** The keys that the scan collects over [entries]. *)
Lemma ForEach_visit_keys (root : Bucket) (now_at : string -> Time) :
  forall (entries : Bucket) (st : bool * list string),
    (forall k n, In (k, n) entries -> seek root k = Some n) ->
    snd (fst (Bucket_ForEach entries (visit s root now_at) st)) =
    (snd st ++ expired_keys now_at (before_plain_key entries))%list.
Proof.
  induction entries as [|[k n] rest IH]; intros st Hin; simpl.
  - now rewrite List.app_nil_r.
  - assert (Hk : seek root k = Some n) by (apply Hin; now left).
    unfold visit at 1. unfold Bucket_Bucket. rewrite Hk.
    destruct n as [v|c]; simpl.
    + now rewrite List.app_nil_r.
    + rewrite IH by (intros k' n' H'; apply Hin; now right). simpl.
      destruct (isExpired c (now_at k)); simpl; [|reflexivity].
      now rewrite <- List.app_assoc.
Qed.

End ReaperOutcome.


(** X5.  [worker] on any sequence of ticker and cancellation events:
    it never panics, it leaves the database as it was, it has returned
    exactly when the sequence holds a [ctx.Done], and nothing after the
    first [ctx.Done] is looked at. *)
Theorem X5_worker_runs_until_done (s : BoltStore) (events : list event) (db : DB) :
  (exists log, worker s events db = Return (db, log, existsb is_done events))
  /\ (forall before after,
        events = (before ++ CtxDone :: after)%list ->
        worker s events db = worker s (before ++ [CtxDone]) db).
Proof.
  split; [apply worker_outcome|].
  intros before after ->. apply worker_stops_at_done.
Qed.

(** X6.  The read pass of the reaper, on an open database whose root
    bucket has no duplicate keys, returns a nil error and exactly the
    keys of the expired session buckets that come before the first
    plain key of the root bucket, in key order: without a plain key,
    every expired session and no other. *)
Theorem X6_read_pass_collects_expired (s : BoltStore) (now_at : string -> Time)
    (db : DB) (root : Bucket) :
  db_open db = true ->
  Tx_Bucket (db_tx db) (BucketName (bs_options s)) = Some root ->
  NoDup (map fst root) ->
  read_pass s now_at db =
  Return (expired_keys now_at (before_plain_key root), None).
Proof.
  intros Hopen Hroot Hnd. unfold read_pass, DB_View. rewrite Hopen, Hroot.
  pose proof (ForEach_visit_keys s root now_at root (false, [])
                (fun k n H => seek_In_NoDup root k n Hnd H)) as Hk.
  destruct (Bucket_ForEach root (visit s root now_at) (false, [])) as [[e keys] err].
  simpl in Hk. now rewrite Hk.
Qed.

Lemma X6_read_pass_collects_expired_witness :
  read_pass (Sample.store 0) (fun _ => clock 200 0) Sample.db_with_plain_key =
  Return (expired_keys (fun _ => clock 200 0)
            (before_plain_key [("S1", Sample.record "foo" "100"); ("zz", Leaf "x")]),
          None).
Proof.
  apply (X6_read_pass_collects_expired (Sample.store 0) (fun _ => clock 200 0)
           Sample.db_with_plain_key
           [("S1", Sample.record "foo" "100"); ("zz", Leaf "x")]).
  - reflexivity.
  - reflexivity.
  - repeat constructor; simpl; intuition discriminate.
Defined.

Example read_pass_mixed :
  read_pass (Sample.store 0) (fun _ => clock 200 0)
    (mkDB true [("sessions",
                 Nested [("A", Sample.record "a" "100");
                         ("B", Sample.record "b" "300");
                         ("C", Nested [("values", Leaf "c")]);
                         ("D", Sample.record "d" "later")])]) =
  Return (["A"; "C"; "D"], None).
Proof. reflexivity. Qed.

(* ------------------------------------------------------------------ *)
(** ** What a failing [Save] leaves behind *)

Section Failures.

Variable s : BoltStore.

(** [db.Update] that returns an error has rolled back. *)
Lemma DB_Update_error (db db' : DB) (fn : Tx -> go (Tx * option error)) (e : error) :
  DB_Update db fn = Return (db', Some e) -> db' = db.
Proof.
  unfold DB_Update. destruct (db_open db).
  - destruct (fn (db_tx db)) as [[tx' [e'|]]|]; intros H; inversion H; reflexivity.
  - intros H; inversion H; reflexivity.
Qed.

Lemma save_error (now : Time) (db db' : DB) (session : Session) (e : error) :
  save s now db session = Return (db', Some e) -> db' = db.
Proof.
  unfold save. destruct (Serialize _ _) as [b|e0]; [|intros H; now inversion H].
  destruct (negb _ && _); [intros H; now inversion H|].
  apply DB_Update_error.
Qed.

Lemma delete_error (db db' : DB) (session : Session) (e : error) :
  delete s db session = Return (db', Some e) -> db' = db.
Proof. unfold delete. apply DB_Update_error. Qed.

End Failures.

(** X7.  What [Save] does to the response and, when it fails, to the
    store.  A [Save] that returns an error has set no cookie; the
    database is as before, except when the error is that of
    [securecookie.EncodeMulti]: then [save] had committed the record,
    which stays stored although no cookie names it.  A [Save] that
    returns nil has handed exactly one cookie to [http.SetCookie], with
    the name and the options of the session, and with an empty value
    when [MaxAge] is not positive: for a session name that is a valid
    cookie name it is added after the cookies already set; for any
    other name (an empty one, one with a space) [http.SetCookie] drops
    it, and [Save] returns nil with the response as it was. *)
Theorem X7_Save_response (s : BoltStore) (now : Time) (key : list Z) (db db' : DB)
    (w w' : ResponseWriter) (session session' : Session) (err : option error) :
  Save s now key db w session = Return (db', w', session', err) ->
  (forall e, err = Some e ->
     w' = w
     /\ (db' = db
         \/ (0 < MaxAge (sOptions session)
             /\ save s now db session' = Return (db', None)
             /\ exists e', EncodeMulti (bs_Codecs s) (sName session') (ID session') = inr e'
                           /\ e = Wrap "encode cookie error" e')))
  /\ (err = None ->
      exists value,
        (isCookieNameValid (sName session) = true ->
         w' = (w ++ [NewCookie (sName session) value (sOptions session)])%list)
        /\ (isCookieNameValid (sName session) = false -> w' = w)
        /\ (MaxAge (sOptions session) <= 0 -> value = "")
        /\ (0 < MaxAge (sOptions session) ->
            EncodeMulti (bs_Codecs s) (sName session) (ID session') = inl value)).
Proof.
  unfold Save. destruct (MaxAge (sOptions session) <=? 0) eqn:Hage.
  - apply Z.leb_le in Hage.
    destruct (delete s db session) as [[db1 [e1|]]|] eqn:Hd; simpl;
      intros H; inversion H; subst; clear H.
    + split; [|discriminate]. intros e He. inversion He; subst.
      split; [reflexivity|]. left. eapply delete_error; eassumption.
    + split; [discriminate|]. intros _. exists "".
      destruct (SetCookie_cases w (NewCookie (sName session') "" (sOptions session')))
        as [Hv Hi].
      split; [exact Hv|]. split; [exact Hi|]. split; [reflexivity|]. lia.
  - apply Z.leb_gt in Hage.
    set (x := if String.eqb (ID session) "" then set_ID session (newSessionID key)
              else session).
    assert (Hn : sName x = sName session) by (subst x; now destruct (String.eqb _ _)).
    assert (Ho : sOptions x = sOptions session) by (subst x; now destruct (String.eqb _ _)).
    destruct (save s now db x) as [[db1 [e1|]]|] eqn:Hs; simpl.
    + intros H; inversion H; subst; clear H.
      split; [|discriminate]. intros e He. inversion He; subst.
      split; [reflexivity|]. left. eapply save_error; eassumption.
    + destruct (EncodeMulti (bs_Codecs s) (sName x) (ID x)) as [encoded|e1] eqn:He;
        intros H; inversion H; subst; clear H.
      * split; [discriminate|]. intros _. exists encoded.
        destruct (SetCookie_cases w (NewCookie (sName x) encoded (sOptions x)))
          as [Hv Hi].
        cbn [NewCookie cName] in Hv, Hi. rewrite Hn, Ho in *.
        split; [exact Hv|]. split; [exact Hi|]. split; [lia|].
        intros _. exact He.
      * split; [|discriminate]. intros e Heq. inversion Heq; subst.
        split; [reflexivity|]. right. split; [exact Hage|]. split; [exact Hs|].
        exists e1. split; [exact He|reflexivity].
    + discriminate.
Qed.

Lemma X7_Save_response_witness :
  let session := mkSession "S7" [("k", "bar")] (mkOptions "/" "" 3600 false false) true "sid" in
  let db' :=
    mkDB true [("sessions", Nested [("S1", Sample.record "foo" "100");
                                    ("S7", Sample.record "bar" "3800")])] in
  let w' := [mkCookie "sid" "sid:S7" "/" "" 3600 false false] in
  let s := Sample.store 0 in
  (forall e, @None error = Some e ->
     w' = []
     /\ (db' = Sample.db1
         \/ (0 < MaxAge (sOptions session)
             /\ save s (clock 200 5) Sample.db1 session = Return (db', None)
             /\ exists e', EncodeMulti (bs_Codecs s) (sName session) (ID session) = inr e'
                           /\ e = Wrap "encode cookie error" e')))
  /\ (@None error = None ->
      exists value,
        (isCookieNameValid (sName session) = true ->
         w' = ([] ++ [NewCookie (sName session) value (sOptions session)])%list)
        /\ (isCookieNameValid (sName session) = false -> w' = [])
        /\ (MaxAge (sOptions session) <= 0 -> value = "")
        /\ (0 < MaxAge (sOptions session) ->
            EncodeMulti (bs_Codecs s) (sName session) (ID session) = inl value)).
Proof.
  intros session db' w' s.
  apply (X7_Save_response s (clock 200 5) [] Sample.db1 db' [] w' session session None).
  reflexivity.
Defined.

(** The error of the codecs comes after the record is stored. *)
Example Save_encode_error_keeps_record :
  Save (mkBoltStore (mkCodecs (fun _ _ => inr (ErrExternal "no codecs"))
                       (DecodeMulti Sample.codecs))
          (mkOptions "/" "" 3600 false false) (Sample.options 0))
    (clock 200 5) [] Sample.db1 []
    (mkSession "S7" [("k", "bar")] (mkOptions "/" "" 3600 false false) true "sid") =
  Return (mkDB true [("sessions", Nested [("S1", Sample.record "foo" "100");
                                          ("S7", Sample.record "bar" "3800")])],
          [],
          mkSession "S7" [("k", "bar")] (mkOptions "/" "" 3600 false false) true "sid",
          Some (Wrap "encode cookie error" (ErrExternal "no codecs"))).
Proof. reflexivity. Qed.

(** A session name with a space: the record is stored, [Save] returns
    nil, and the response gets no cookie. *)
Example Save_invalid_name_sets_no_cookie :
  Save (Sample.store 0) (clock 200 5) [] Sample.db1 []
    (mkSession "S7" [("k", "bar")] (mkOptions "/" "" 3600 false false) true "my session") =
  Return (mkDB true [("sessions", Nested [("S1", Sample.record "foo" "100");
                                          ("S7", Sample.record "bar" "3800")])],
          [],
          mkSession "S7" [("k", "bar")] (mkOptions "/" "" 3600 false false) true
            "my session",
          None).
Proof. reflexivity. Qed.

(* ------------------------------------------------------------------ *)
(** ** What [delete] removes *)

Section DeleteKeeps.

Variable s : BoltStore.

Lemma seek_del_other (b : Bucket) (key k : string) :
  k <> key -> seek (del b key) k = seek b k.
Proof.
  intros Hk. induction b as [|[k0 m] rest IH]; simpl; [reflexivity|].
  destruct (String.eqb key k0) eqn:E; simpl.
  - apply String.eqb_eq in E. subst k0.
    apply String.eqb_neq in Hk. now rewrite Hk.
  - now rewrite IH.
Qed.

Lemma delete_outcome (db : DB) (session : Session) (root bucket : Bucket) :
  db_open db = true ->
  Tx_Bucket (db_tx db) (BucketName (bs_options s)) = Some root ->
  Bucket_Bucket root (ID session) = Some bucket ->
  exists db' err root' bucket',
    delete s db session = Return (db', err)
    /\ db_open db' = true
    /\ Tx_Bucket (db_tx db') (BucketName (bs_options s)) = Some root'
    /\ Bucket_Bucket root' (ID session) = Some bucket'
    /\ (forall k, k <> ID session -> seek bucket' k = seek bucket k)
    /\ (forall k, k <> ID session -> seek root' k = seek root k)
    /\ (forall k, k <> BucketName (bs_options s) ->
                  seek (db_tx db') k = seek (db_tx db) k).
Proof.
  intros Hopen Hroot Hb.
  destruct (seek bucket (ID session)) as [[v|c]|] eqn:Hk.
  - exists (mkDB true (store_child (db_tx db) (BucketName (bs_options s))
                         (store_child root (ID session) (del bucket (ID session))))),
      None, (store_child root (ID session) (del bucket (ID session))),
      (del bucket (ID session)).
    split.
    { unfold delete, DB_Update, Bucket_Delete. now rewrite Hopen, Hroot, Hb, Hk. }
    split; [reflexivity|]. simpl. split.
    { unfold Tx_Bucket, Bucket_Bucket.
      now rewrite (seek_store_child_same _ _ _ _ (Bucket_Bucket_seek _ _ _ Hroot)). }
    split.
    { unfold Bucket_Bucket.
      now rewrite (seek_store_child_same _ _ _ _ (Bucket_Bucket_seek _ _ _ Hb)). }
    split; [intros k Hne; now apply seek_del_other|].
    split; intros k Hne; now apply seek_store_child_other.
  - exists db, (Some ErrIncompatibleValue), root, bucket.
    split.
    { unfold delete, DB_Update, Bucket_Delete. now rewrite Hopen, Hroot, Hb, Hk. }
    repeat split; auto.
  - exists db, None, root, bucket.
    split; [now apply (delete_leaves_record s db session root bucket)|].
    repeat split; auto.
Qed.

End DeleteKeeps.

(** X8.  [delete] on a stored session (open database, root bucket and
    session bucket there) never panics and never removes the session
    bucket: after it the bucket is still under the root bucket, and it
    holds every entry it held under a key other than the session
    identifier, so the payload and the expiry of a session whose
    identifier is neither [values] nor [expired_at]; the other sessions
    and the other top-level buckets are as before. *)
Theorem X8_delete_keeps_session_bucket (s : BoltStore) (db : DB) (session : Session)
    (root bucket : Bucket) :
  db_open db = true ->
  Tx_Bucket (db_tx db) (BucketName (bs_options s)) = Some root ->
  Bucket_Bucket root (ID session) = Some bucket ->
  exists db' err root' bucket',
    delete s db session = Return (db', err)
    /\ db_open db' = true
    /\ Tx_Bucket (db_tx db') (BucketName (bs_options s)) = Some root'
    /\ Bucket_Bucket root' (ID session) = Some bucket'
    /\ (forall k, k <> ID session -> seek bucket' k = seek bucket k)
    /\ (forall k, k <> ID session -> seek root' k = seek root k)
    /\ (forall k, k <> BucketName (bs_options s) ->
                  seek (db_tx db') k = seek (db_tx db) k).
Proof. apply delete_outcome. Qed.

Lemma X8_delete_keeps_session_bucket_witness :
  let s := Sample.store 0 in
  let session := Sample.session1 0 in
  let root := [("S1", Sample.record "foo" "100")] in
  let bucket := [("expired_at", Leaf "100"); ("values", Leaf "foo")] in
  exists db' err root' bucket',
    delete s Sample.db1 session = Return (db', err)
    /\ db_open db' = true
    /\ Tx_Bucket (db_tx db') (BucketName (bs_options s)) = Some root'
    /\ Bucket_Bucket root' (ID session) = Some bucket'
    /\ (forall k, k <> ID session -> seek bucket' k = seek bucket k)
    /\ (forall k, k <> ID session -> seek root' k = seek root k)
    /\ (forall k, k <> BucketName (bs_options s) ->
                  seek (db_tx db') k = seek (db_tx Sample.db1) k).
Proof.
  intros s session root bucket.
  apply (X8_delete_keeps_session_bucket s Sample.db1 session root bucket);
    reflexivity.
Defined.

(** A session whose identifier is the name of one of its own entries:
    the only case in which [delete] removes anything. *)
Example delete_removes_own_name :
  delete (Sample.store 0)
    (mkDB true [("sessions", Nested [("values", Sample.record "foo" "100")])])
    (mkSession "values" [] (mkOptions "/" "" 0 false false) false "sid") =
  Return (mkDB true [("sessions",
                      Nested [("values", Nested [("expired_at", Leaf "100")])])],
          None).
Proof. reflexivity. Qed.

(* ------------------------------------------------------------------ *)
(** ** Making the store *)

Section Making.

Variable gob : SessionSerializer.
Variable mk : list string -> Codecs.


Lemma mkDB_eta (db : DB) : db_open db = true -> mkDB true (db_tx db) = db.
Proof. destruct db as [o tx]; simpl; now intros ->. Qed.

(** Every way in which [NewStoreWithDB] ends. *)
Lemma NewStoreWithDB_cases (db : DB) (o : UserOptions) :
  let opts := setOptions gob o in
  match uKeyPairs o with
  | None =>
      NewStoreWithDB_user gob mk db o = Return (db, None, Some ErrSecretKeyAbsent)
  | Some pairs =>
      if db_open db then
        if len (BucketName opts) =? 0 then
          NewStoreWithDB_user gob mk db o =
          Return (DB_Close db, None,
                  Some (Wrap "create sessions buckets error" ErrBucketNameRequired))
        else
          match seek (db_tx db) (BucketName opts) with
          | Some (Leaf _) =>
              NewStoreWithDB_user gob mk db o =
              Return (DB_Close db, None,
                      Some (Wrap "create sessions buckets error" ErrIncompatibleValue))
          | Some (Nested _) =>
              NewStoreWithDB_user gob mk db o =
              Return (db,
                      Some (mkBoltStore (mk pairs)
                              (mkOptions "/" "" (Z.quot (SessionExpire opts) 1000000000)
                                 false false) opts),
                      None)
          | None =>
              NewStoreWithDB_user gob mk db o =
              Return (mkDB true (put (db_tx db) (BucketName opts) (Nested [])),
                      Some (mkBoltStore (mk pairs)
                              (mkOptions "/" "" (Z.quot (SessionExpire opts) 1000000000)
                                 false false) opts),
                      None)
          end
      else
        NewStoreWithDB_user gob mk db o =
        Return (DB_Close db, None,
                Some (Wrap "create sessions buckets error" ErrDatabaseNotOpen))
  end.
Proof.
  intros opts. unfold NewStoreWithDB_user, NewStoreWithDB. fold opts.
  change (KeyPairs opts) with (uKeyPairs o).
  destruct (uKeyPairs o) as [pairs|]; [|reflexivity].
  unfold DB_Update, Tx_CreateBucketIfNotExists, Bucket_CreateBucketIfNotExists.
  destruct (db_open db) eqn:Hopen; [|reflexivity].
  destruct (len (BucketName opts) =? 0); [reflexivity|].
  destruct (seek (db_tx db) (BucketName opts)) as [[v|c]|]; simpl; try reflexivity.
  now rewrite (mkDB_eta db Hopen).
Qed.

End Making.

(** X9.  A [NewStoreWithDB] that returns a store was given key pairs and
    an open database, and leaves the database open with the root bucket
    in it: a root bucket that was there is kept with all its sessions
    (the database is as before), one that was missing is created empty,
    and the other top-level buckets are as before.  The store holds the
    options after [setOptions], the codecs of the key pairs, and default
    cookie options with path [/] and [MaxAge] the whole seconds of
    [SessionExpire], rounded towards zero. *)
Theorem X9_NewStoreWithDB_success (gob : SessionSerializer) (mk : list string -> Codecs)
    (db db' : DB) (o : UserOptions) (s : BoltStore) :
  NewStoreWithDB_user gob mk db o = Return (db', Some s, None) ->
  let opts := setOptions gob o in
  (exists pairs, uKeyPairs o = Some pairs /\ bs_Codecs s = mk pairs)
  /\ bs_options s = opts
  /\ bs_Options s = mkOptions "/" "" (Z.quot (SessionExpire opts) (10 ^ 9)) false false
  /\ db_open db = true /\ db_open db' = true
  /\ (forall root, Tx_Bucket (db_tx db) (BucketName opts) = Some root -> db' = db)
  /\ (Tx_Bucket (db_tx db) (BucketName opts) = None ->
      Tx_Bucket (db_tx db') (BucketName opts) = Some [])
  /\ (forall k, k <> BucketName opts -> seek (db_tx db') k = seek (db_tx db) k).
Proof.
  intros H opts. pose proof (NewStoreWithDB_cases gob mk db o) as Hc.
  fold opts in Hc. cbv zeta in Hc.
  destruct (uKeyPairs o) as [pairs|] eqn:Hp; [|rewrite Hc in H; discriminate].
  destruct (db_open db) eqn:Hopen; [|rewrite Hc in H; discriminate].
  destruct (len (BucketName opts) =? 0); [rewrite Hc in H; discriminate|].
  unfold Tx_Bucket, Bucket_Bucket.
  destruct (seek (db_tx db) (BucketName opts)) as [[v|c]|] eqn:Hk;
    rewrite Hc in H; inversion H; subst; clear H; simpl.
  - split; [exists pairs; split; reflexivity|].
    repeat split; try reflexivity; try assumption. discriminate.
  - split; [exists pairs; split; reflexivity|].
    repeat split; try reflexivity.
    + discriminate.
    + intros _. now rewrite seek_put_same.
    + intros k Hne. now apply seek_put_other.
Qed.

Lemma X9_NewStoreWithDB_success_witness :
  let o := mkUserOptions (Some ["secret-key"]) "" None 1500000000 None 0 0 in
  let opts := setOptions Sample.serializer o in
  let db := mkDB true [("other", Nested [])] in
  let db' := mkDB true [("other", Nested []); ("sessions", Nested [])] in
  let s := mkBoltStore Sample.codecs (mkOptions "/" "" 1 false false) opts in
  (exists pairs, uKeyPairs o = Some pairs /\ bs_Codecs s = Sample.codecs)
  /\ bs_options s = opts
  /\ bs_Options s = mkOptions "/" "" (Z.quot (SessionExpire opts) (10 ^ 9)) false false
  /\ db_open db = true /\ db_open db' = true
  /\ (forall root, Tx_Bucket (db_tx db) (BucketName opts) = Some root -> db' = db)
  /\ (Tx_Bucket (db_tx db) (BucketName opts) = None ->
      Tx_Bucket (db_tx db') (BucketName opts) = Some [])
  /\ (forall k, k <> BucketName opts -> seek (db_tx db') k = seek (db_tx db) k).
Proof.
  intros o opts db db' s.
  apply (X9_NewStoreWithDB_success Sample.serializer (fun _ => Sample.codecs) db db' o s).
  reflexivity.
Defined.



(* ------------------------------------------------------------------ *)
(** ** The store after [Close] *)

(** X11.  After [Close] every operation of the store fails without a
    panic and changes nothing: [load] and [delete] return "database not
    open", [save] and [Save] return an error and set no cookie, and a
    round of the reaper logs "database not open" as the error of its
    read pass and starts no write pass. *)
Theorem X11_after_Close (s : BoltStore) (now : Time) (key : list Z)
    (now_at : string -> Time) (db : DB) (w : ResponseWriter) (session : Session) :
  let db0 := fst (Close db) in
  db_tx db0 = db_tx db
  /\ load s db0 session = Return (session, false, Some ErrDatabaseNotOpen)
  /\ delete s db0 session = Return (db0, Some ErrDatabaseNotOpen)
  /\ (exists e, save s now db0 session = Return (db0, Some e))
  /\ (exists session' e, Save s now key db0 w session = Return (db0, w, session', Some e))
  /\ tick s now_at db0 = Return (db0, [LogObtain ErrDatabaseNotOpen], false).
Proof.
  intros db0. split; [reflexivity|].
  split; [now apply load_closed|].
  assert (Hd : delete s db0 session = Return (db0, Some ErrDatabaseNotOpen))
    by reflexivity.
  assert (Hs : forall x, exists e, save s now db0 x = Return (db0, Some e)).
  { intros x. unfold save, DB_Update. simpl.
    destruct (Serialize _ _) as [b|e]; [|eauto].
    destruct (negb _ && _); eauto. }
  split; [exact Hd|]. split; [apply Hs|]. split; [|reflexivity].
  unfold Save. destruct (MaxAge (sOptions session) <=? 0).
  - rewrite Hd. simpl. eauto.
  - match goal with |- context [save s now db0 ?x] => destruct (Hs x) as [e He] end.
    rewrite He. simpl. eauto.
Qed.

(* ------------------------------------------------------------------ *)
(** ** The root bucket and the nil dereference *)

Section RootBucket.

Variable s : BoltStore.

Let root_missing (db : DB) : Prop :=
  db_open db = true /\ Tx_Bucket (db_tx db) (BucketName (bs_options s)) = None.

Lemma load_panic_iff (db : DB) (session : Session) :
  load s db session = Panic <-> root_missing db.
Proof.
  unfold root_missing, load, DB_View. destruct (db_open db); simpl.
  - destruct (Tx_Bucket _ _) as [root|]; simpl.
    + destruct (Bucket_Bucket _ _); simpl;
        [destruct (Bucket_Get _ _); simpl;
         [destruct (Deserialize _ _ _) as [x [e|]]; simpl|]|];
        (split; [discriminate|intros [_ H]; discriminate]).
    + split; auto.
  - split; [discriminate|intros [H _]; discriminate].
Qed.

Lemma delete_panic_iff (db : DB) (session : Session) :
  delete s db session = Panic <-> root_missing db.
Proof.
  unfold root_missing, delete, DB_Update. destruct (db_open db); simpl.
  - destruct (Tx_Bucket _ _) as [root|]; simpl.
    + destruct (Bucket_Bucket _ _); simpl;
        [destruct (Bucket_Delete _ _); simpl|];
        (split; [discriminate|intros [_ H]; discriminate]).
    + split; auto.
  - split; [discriminate|intros [H _]; discriminate].
Qed.

Lemma save_panic_iff (now : Time) (db : DB) (session : Session) :
  save s now db session = Panic <->
  root_missing db
  /\ exists b, Serialize (Serializer (bs_options s)) session = inl b
               /\ (MaxLength (bs_options s) = 0 \/ len b <= MaxLength (bs_options s)).
Proof.
  unfold root_missing, save, DB_Update.
  destruct (Serialize _ _) as [b|e].
  2:{ split; [discriminate|]. intros (_ & b & H & _). discriminate. }
  destruct (negb (MaxLength (bs_options s) =? 0) && (len b >? MaxLength (bs_options s)))
    eqn:Hbig.
  { split; [discriminate|]. intros (_ & b' & Hb & Hl). exfalso.
    inversion Hb; subst b'. apply andb_prop in Hbig. destruct Hbig as [H0 H1].
    apply negb_true_iff, Z.eqb_neq in H0. rewrite Z.gtb_ltb in H1.
    apply Z.ltb_lt in H1. lia. }
  assert (Hfit : MaxLength (bs_options s) = 0 \/ len b <= MaxLength (bs_options s)).
  { apply andb_false_iff in Hbig. destruct Hbig as [H0|H1].
    - left. apply negb_false_iff in H0. now apply Z.eqb_eq.
    - right. rewrite Z.gtb_ltb in H1. apply Z.ltb_ge in H1. exact H1. }
  destruct (db_open db); simpl.
  - destruct (Tx_Bucket _ _) as [root|]; simpl.
    + split; [|intros [[_ H] _]; discriminate].
      destruct (Bucket_CreateBucketIfNotExists _ _) as [[r1 c]|e]; [|discriminate].
      destruct (Bucket_Put c keyValues b) as [c1|e]; [|discriminate].
      destruct (Bucket_Put c1 keyExpiredAt _) as [c2|e]; discriminate.
    + split; [|reflexivity]. intros _. split; [auto|]. exists b. auto.
  - split; [discriminate|intros [[H _] _]; discriminate].
Qed.

Lemma Save_panic (now : Time) (key : list Z) (db : DB) (w : ResponseWriter)
    (session : Session) :
  Save s now key db w session = Panic -> root_missing db.
Proof.
  unfold Save. destruct (MaxAge (sOptions session) <=? 0).
  - destruct (delete s db session) as [[db1 [e|]]|] eqn:Hd; simpl; try discriminate.
    intros _. now apply (delete_panic_iff db session).
  - match goal with |- context [save s now db ?x] =>
      destruct (save s now db x) as [[db1 [e|]]|] eqn:Hs; simpl; try discriminate;
      [destruct (EncodeMulti _ _ _); discriminate|]
    end.
    intros _. eapply save_panic_iff. exact Hs.
Qed.

Lemma New_panic (db : DB) (r : Request) (name : string) :
  New s db r name = Panic -> root_missing db.
Proof.
  unfold New. destruct (Request_Cookie r name) as [value|]; [|discriminate].
  destruct (DecodeMulti _ _ _ _) as [id [e|]]; [discriminate|].
  match goal with |- context [load s db ?x] =>
    destruct (load s db x) as [[[x' ok] err]|] eqn:Hl; simpl; [discriminate|]
  end.
  intros _. eapply load_panic_iff. exact Hl.
Qed.

(** [delete], [save] and [Save] keep the root bucket. *)
Lemma delete_keeps_root (db db' : DB) (session : Session) (err : option error) :
  delete s db session = Return (db', err) ->
  Tx_Bucket (db_tx db) (BucketName (bs_options s)) <> None ->
  Tx_Bucket (db_tx db') (BucketName (bs_options s)) <> None.
Proof.
  intros H Hroot. destruct err as [e|].
  - now rewrite (delete_error s db db' session e H).
  - unfold delete, DB_Update in H.
    destruct (db_open db); [|discriminate].
    destruct (Tx_Bucket _ _) as [root|] eqn:Hr; [|discriminate].
    destruct (Bucket_Bucket _ _); [|discriminate].
    destruct (Bucket_Delete _ _); inversion H; subst; simpl.
    unfold Tx_Bucket, Bucket_Bucket.
    rewrite (seek_store_child_same _ _ _ _ (Bucket_Bucket_seek _ _ _ Hr)).
    discriminate.
Qed.

Lemma save_keeps_root (now : Time) (db db' : DB) (session : Session)
    (err : option error) :
  save s now db session = Return (db', err) ->
  Tx_Bucket (db_tx db) (BucketName (bs_options s)) <> None ->
  Tx_Bucket (db_tx db') (BucketName (bs_options s)) <> None.
Proof.
  intros H Hroot. destruct err as [e|].
  - now rewrite (save_error s now db db' session e H).
  - destruct (save_success s now db db' session H)
      as (root & root' & b & bucket' & _ & _ & _ & Hr & _).
    congruence.
Qed.

Lemma Save_keeps_root (now : Time) (key : list Z) (db db' : DB)
    (w w' : ResponseWriter) (session session' : Session) (err : option error) :
  Save s now key db w session = Return (db', w', session', err) ->
  Tx_Bucket (db_tx db) (BucketName (bs_options s)) <> None ->
  Tx_Bucket (db_tx db') (BucketName (bs_options s)) <> None.
Proof.
  unfold Save. destruct (MaxAge (sOptions session) <=? 0).
  - destruct (delete s db session) as [[db1 err1]|] eqn:Hd; simpl; [|discriminate].
    intros H Hroot.
    assert (db1 = db') by (destruct err1; now inversion H). subst db1.
    exact (delete_keeps_root db db' session err1 Hd Hroot).
  - match goal with |- context [save s now db ?x] =>
      destruct (save s now db x) as [[db1 err1]|] eqn:Hs; simpl; [|discriminate];
      intros H Hroot;
      assert (db1 = db')
        by (destruct err1; [now inversion H|destruct (EncodeMulti _ _ _); now inversion H]);
      subst db1; exact (save_keeps_root now db db' x err1 Hs Hroot)
    end.
Qed.

Lemma reachable_root (db0 db : DB) :
  Tx_Bucket (db_tx db0) (BucketName (bs_options s)) <> None ->
  reachable s db0 db ->
  Tx_Bucket (db_tx db) (BucketName (bs_options s)) <> None.
Proof.
  intros H0 Hr. induction Hr as [|now key db w session db' w' session' err _ IH HS
                                |now_at db db' log started _ IH Ht|db _ IH].
  - exact H0.
  - exact (Save_keeps_root now key db db' w w' session session' err HS IH).
  - destruct (tick_outcome s now_at db) as (log0 & st0 & Ht0 & _).
    rewrite Ht0 in Ht. inversion Ht; subst. exact IH.
  - exact IH.
Qed.

End RootBucket.

(** X12.  The nil dereference of [tx.Bucket(...).Bucket(...)]: [load]
    and [delete] panic exactly on an open database without the root
    bucket; [save] panics exactly there too, once the payload is
    serialized and within the size limit; [Save] and [New] panic nowhere
    else.  The round of the reaper, which checks the bucket for nil,
    never panics. *)
Theorem X12_panic_iff_root_missing (s : BoltStore) (now : Time) (key : list Z)
    (now_at : string -> Time) (db : DB) (w : ResponseWriter) (session : Session)
    (r : Request) (name : string) :
  let root_missing :=
    db_open db = true /\ Tx_Bucket (db_tx db) (BucketName (bs_options s)) = None in
  (load s db session = Panic <-> root_missing)
  /\ (delete s db session = Panic <-> root_missing)
  /\ (save s now db session = Panic <->
      root_missing
      /\ exists b, Serialize (Serializer (bs_options s)) session = inl b
                   /\ (MaxLength (bs_options s) = 0 \/ len b <= MaxLength (bs_options s)))
  /\ (Save s now key db w session = Panic -> root_missing)
  /\ (New s db r name = Panic -> root_missing)
  /\ tick s now_at db <> Panic.
Proof.
  intros root_missing. split; [apply load_panic_iff|].
  split; [apply delete_panic_iff|]. split; [apply save_panic_iff|].
  split; [apply Save_panic|]. split; [apply New_panic|].
  destruct (tick_outcome s now_at db) as (log & started & Ht & _).
  rewrite Ht. discriminate.
Qed.

(** X13.  A store made by [NewStoreWithDB] from options whose
    [ReapCheckInterval] is not negative never panics.  Its reaper gets
    its ticker and runs its loop on any events; and on every database
    reached from the one [NewStoreWithDB] returned by any sequence of
    [Save], rounds of the reaper and [Close], the root bucket is there
    and [Save], [New], [load] and the round of the reaper return.
    (With a negative interval the reaper panics as it starts.) *)
Theorem X13_store_never_panics (gob : SessionSerializer) (mk : list string -> Codecs)
    (dbi db0 db : DB) (o : UserOptions) (s : BoltStore) :
  NewStoreWithDB_user gob mk dbi o = Return (db0, Some s, None) ->
  0 <= uReapCheckInterval o ->
  reachable s db0 db ->
  Tx_Bucket (db_tx db) (BucketName (bs_options s)) <> None
  /\ (forall events, worker_from_start s events db <> Panic)
  /\ (forall now key w session, Save s now key db w session <> Panic)
  /\ (forall r name, New s db r name <> Panic)
  /\ (forall session, load s db session <> Panic)
  /\ (forall now_at, tick s now_at db <> Panic).
Proof.
  intros Hnew Hint Hreach. unfold NewStoreWithDB_user in Hnew.
  destruct (NewStoreWithDB_root mk dbi db0 (setOptions gob o) s Hnew) as [Ho H0].
  rewrite <- Ho in H0.
  pose proof (reachable_root s db0 db H0 Hreach) as Hroot.
  split; [exact Hroot|].
  split.
  { intros events. unfold worker_from_start, NewTicker. rewrite Ho.
    cbn [setOptions ReapCheckInterval].
    destruct (worker_outcome s events db) as [log Hw].
    destruct (uReapCheckInterval o =? 0) eqn:Hz.
    - simpl. rewrite Hw. discriminate.
    - apply Z.eqb_neq in Hz.
      replace (uReapCheckInterval o <=? 0) with false
        by (symmetry; apply Z.leb_gt; lia).
      simpl. rewrite Hw. discriminate. }
  split; [intros now key w session E; apply Save_panic in E; now destruct E|].
  split; [intros r name E; apply New_panic in E; now destruct E|].
  split; [intros session E; apply load_panic_iff in E; now destruct E|].
  intros now_at. destruct (tick_outcome s now_at db) as (log & started & Ht & _).
  rewrite Ht. discriminate.
Qed.

Lemma X13_store_never_panics_witness :
  let o := mkUserOptions (Some ["secret-key"]) "" None 0 (Some Sample.serializer) 0 0 in
  let s := mkBoltStore Sample.codecs (mkOptions "/" "" 86400 false false)
             (setOptions Sample.serializer o) in
  let db := mkDB true [("sessions", Nested [("S7", Sample.record "bar" "86600")])] in
  Tx_Bucket (db_tx db) (BucketName (bs_options s)) <> None
  /\ (forall events, worker_from_start s events db <> Panic)
  /\ (forall now key w session, Save s now key db w session <> Panic)
  /\ (forall r name, New s db r name <> Panic)
  /\ (forall session, load s db session <> Panic)
  /\ (forall now_at, tick s now_at db <> Panic).
Proof.
  intros o s db.
  apply (X13_store_never_panics Sample.serializer (fun _ => Sample.codecs)
           (mkDB true []) (mkDB true [("sessions", Nested [])]) db o s).
  - reflexivity.
  - vm_compute. discriminate.
  - apply (reach_tick (s := s) (db0 := mkDB true [("sessions", Nested [])])
             (fun _ => clock 1000000 0) (db := db) (db' := db)
             (log := [LogRemove ErrIncompatibleValue]) (started := true)).
    + apply (reach_Save (s := s) (db0 := mkDB true [("sessions", Nested [])])
               (clock 200 5) [] (db := mkDB true [("sessions", Nested [])])
               [] (mkSession "S7" [("k", "bar")] (mkOptions "/" "" 3600 false false)
                     true "sid")
               (db' := db)
               (w' := [mkCookie "sid" "sid:S7" "/" "" 3600 false false])
               (session' := mkSession "S7" [("k", "bar")]
                              (mkOptions "/" "" 3600 false false) true "sid")
               (err := None)).
      * apply reach_start.
      * reflexivity.
    + reflexivity.
Defined.

(* ------------------------------------------------------------------ *)
(** ** A session after its expiry *)



(* ------------------------------------------------------------------ *)
(** ** The options of the store at work *)

Section Made.

Variable gob : SessionSerializer.
Variable mk : list string -> Codecs.

(** What a store that [NewStoreWithDB] returned holds, and the database
    it was returned with. *)
Lemma NewStoreWithDB_made (dbi db0 : DB) (o : UserOptions) (s : BoltStore) :
  NewStoreWithDB_user gob mk dbi o = Return (db0, Some s, None) ->
  bs_options s = setOptions gob o
  /\ bs_Options s =
     mkOptions "/" "" (Z.quot (SessionExpire (setOptions gob o)) 1000000000) false false
  /\ db_open db0 = true
  /\ exists root, Tx_Bucket (db_tx db0) (BucketName (setOptions gob o)) = Some root.
Proof.
  intros H. pose proof (NewStoreWithDB_cases gob mk dbi o) as Hc. cbv zeta in Hc.
  destruct (uKeyPairs o) as [pairs|]; [|rewrite Hc in H; discriminate].
  destruct (db_open dbi) eqn:Hopen; [|rewrite Hc in H; discriminate].
  destruct (len (BucketName (setOptions gob o)) =? 0); [rewrite Hc in H; discriminate|].
  destruct (seek (db_tx dbi) (BucketName (setOptions gob o))) as [[v|c]|] eqn:Hk;
    rewrite Hc in H; inversion H; subst; clear H; cbn [bs_options bs_Options db_open db_tx].
  - repeat split; try assumption. exists c.
    unfold Tx_Bucket, Bucket_Bucket. now rewrite Hk.
  - repeat split. exists [].
    unfold Tx_Bucket, Bucket_Bucket. now rewrite seek_put_same.
Qed.

Lemma quot_below_second (d : Z) : d < 10 ^ 9 -> Z.quot d 1000000000 <= 0.
Proof.
  change (10 ^ 9) with 1000000000. intros H.
  destruct (Z.le_gt_cases 0 d) as [Hpos|Hneg].
  - rewrite Z.quot_small; lia.
  - replace d with (- (- d)) by lia. rewrite Z.quot_opp_l by lia.
    pose proof (Z.quot_pos (- d) 1000000000). lia.
Qed.

End Made.

(** X15.  A store with a lifetime below one second cannot take a new
    session.  [NewStoreWithDB] sets the default [MaxAge] to the whole
    seconds of [SessionExpire], so it is zero or negative for such a
    lifetime; the session that [New] returns for a request without the
    cookie carries it, and [Save] of that session goes the way of
    [delete], which finds no bucket for the empty identifier: [Save]
    returns "invalid session bucket", writes nothing and sets no
    cookie.  (The keys of a bolt bucket are never empty.) *)
Theorem X15_subsecond_lifetime (gob : SessionSerializer) (mk : list string -> Codecs)
    (dbi db0 : DB) (o : UserOptions) (s : BoltStore) (now : Time) (key : list Z)
    (w : ResponseWriter) (r : Request) (name : string) :
  NewStoreWithDB_user gob mk dbi o = Return (db0, Some s, None) ->
  uSessionExpire o <> 0 -> uSessionExpire o < 10 ^ 9 ->
  (forall root, Tx_Bucket (db_tx db0) (BucketName (bs_options s)) = Some root ->
                seek root "" = None) ->
  Request_Cookie r name = None ->
  exists session,
    New s db0 r name = Return (session, None)
    /\ IsNew session = true
    /\ MaxAge (sOptions session) <= 0
    /\ Save s now key db0 w session =
       Return (db0, w, session,
               Some (Wrap "delete session from store error"
                       (ErrInvalidSessionBucket (BucketName (bs_options s)) ""))).
Proof.
  intros Hnew Hnz Hlt Hkeys Hcookie.
  destruct (NewStoreWithDB_made gob mk dbi db0 o s Hnew)
    as (Ho & HO & Hopen & root & Hroot).
  rewrite <- Ho in Hroot.
  assert (Hage : MaxAge (bs_Options s) <= 0).
  { rewrite HO. simpl. apply Z.eqb_neq in Hnz. rewrite Hnz.
    now apply quot_below_second. }
  exists (mkSession "" [] (bs_Options s) true name).
  split; [now apply New_no_cookie|]. split; [reflexivity|]. split; [exact Hage|].
  apply (Save_delete_absent_bucket s now key db0 w
           (mkSession "" [] (bs_Options s) true name) root Hage Hopen Hroot).
  unfold Bucket_Bucket. simpl. now rewrite (Hkeys root Hroot).
Qed.

Lemma X15_subsecond_lifetime_witness :
  let o := mkUserOptions (Some ["secret-key"]) "" None 500000000
             (Some Sample.serializer) 0 0 in
  let s := mkBoltStore Sample.codecs (mkOptions "/" "" 0 false false)
             (setOptions Sample.serializer o) in
  let db0 := mkDB true [("sessions", Nested [])] in
  exists session,
    New s db0 [] "sid" = Return (session, None)
    /\ IsNew session = true
    /\ MaxAge (sOptions session) <= 0
    /\ Save s (clock 200 5) [1; 2; 3] db0 [] session =
       Return (db0, [], session,
               Some (Wrap "delete session from store error"
                       (ErrInvalidSessionBucket (BucketName (bs_options s)) ""))).
Proof.
  intros o s db0.
  apply (X15_subsecond_lifetime Sample.serializer (fun _ => Sample.codecs)
           (mkDB true []) db0 o s (clock 200 5) [1; 2; 3] [] [] "sid").
  - reflexivity.
  - discriminate.
  - reflexivity.
  - intros root H. inversion H. reflexivity.
  - reflexivity.
Defined.

(** X16.  [worker] makes its ticker from [ReapCheckInterval], and
    [time.NewTicker] panics on an interval that is not positive.
    [setOptions] replaces a zero interval by a minute and keeps any
    other: the reaper of a store made by [NewStoreWithDB] panics, before
    it looks at any event, exactly when the caller gave a negative
    [ReapCheckInterval], and otherwise runs the loop. *)
Theorem X16_worker_ticker_interval (gob : SessionSerializer)
    (mk : list string -> Codecs) (dbi db0 db : DB) (o : UserOptions) (s : BoltStore)
    (events : list event) :
  NewStoreWithDB_user gob mk dbi o = Return (db0, Some s, None) ->
  (worker_from_start s events db = Panic <-> uReapCheckInterval o < 0)
  /\ (0 <= uReapCheckInterval o -> worker_from_start s events db = worker s events db).
Proof.
  intros Hnew.
  destruct (NewStoreWithDB_made gob mk dbi db0 o s Hnew) as (Ho & _).
  unfold worker_from_start, NewTicker. rewrite Ho. simpl.
  destruct (worker_outcome s events db) as [log Hw]. rewrite Hw.
  destruct (uReapCheckInterval o =? 0) eqn:Hz.
  - apply Z.eqb_eq in Hz. simpl. split; [|reflexivity].
    split; [discriminate|lia].
  - apply Z.eqb_neq in Hz.
    destruct (uReapCheckInterval o <=? 0) eqn:Hle; simpl.
    + apply Z.leb_le in Hle. split; [split; [lia|reflexivity]|lia].
    + apply Z.leb_gt in Hle. split; [split; [discriminate|lia]|reflexivity].
Qed.

Lemma X16_worker_ticker_interval_witness :
  let o := mkUserOptions (Some ["secret-key"]) "" None 0 (Some Sample.serializer) 0 (-1) in
  let s := mkBoltStore Sample.codecs (mkOptions "/" "" 86400 false false)
             (setOptions Sample.serializer o) in
  (worker_from_start s [CtxDone] Sample.db1 = Panic <-> uReapCheckInterval o < 0)
  /\ (0 <= uReapCheckInterval o ->
      worker_from_start s [CtxDone] Sample.db1 = worker s [CtxDone] Sample.db1).
Proof.
  intros o s.
  apply (X16_worker_ticker_interval Sample.serializer (fun _ => Sample.codecs)
           (mkDB true []) (mkDB true [("sessions", Nested [])]) Sample.db1 o s [CtxDone]).
  reflexivity.
Defined.

(* ------------------------------------------------------------------ *)
(** ** Distinct random bytes, distinct identifiers *)

(** X17.  The identifier determines the random bytes it was built from:
    two keys of the same length, of bytes, have the same identifier only
    if they are the same key.  Base 32 loses nothing, and neither does
    the trimming of the padding. *)
Theorem X17_newSessionID_injective (k1 k2 : list Z) :
  List.length k1 = List.length k2 ->
  Forall (fun b => 0 <= b < 256) k1 ->
  Forall (fun b => 0 <= b < 256) k2 ->
  (newSessionID k1 = newSessionID k2 <-> k1 = k2).
Proof.
  intros Hlen H1 H2. split; [|now intros ->].
  apply (newSessionID_inj_upto (S (List.length k1))); auto.
Qed.

Lemma X17_newSessionID_injective_witness :
  newSessionID [0; 255; 7] = newSessionID [0; 255; 6] <-> [0; 255; 7] = [0; 255; 6].
Proof.
  apply (X17_newSessionID_injective [0; 255; 7] [0; 255; 6]).
  - reflexivity.
  - repeat constructor; lia.
  - repeat constructor; lia.
Defined.

(** X18.  Two new sessions do not collide.  When two sessions without
    identifier are saved one after the other and the random source gave
    them different keys (of the same length, 32 in the code), they get
    different identifiers, the second [Save] leaves the record of the
    first as it was, and both records are in the store. *)
Theorem X18_new_sessions_do_not_collide (s : BoltStore) (now1 now2 : Time)
    (key1 key2 : list Z) (db db1 db2 : DB) (w w1 w2 : ResponseWriter)
    (a a' b b' : Session) :
  0 < MaxAge (sOptions a) -> 0 < MaxAge (sOptions b) ->
  ID a = "" -> ID b = "" ->
  List.length key1 = List.length key2 ->
  Forall (fun x => 0 <= x < 256) key1 ->
  Forall (fun x => 0 <= x < 256) key2 ->
  key1 <> key2 ->
  Save s now1 key1 db w a = Return (db1, w1, a', None) ->
  Save s now2 key2 db1 w1 b = Return (db2, w2, b', None) ->
  ID a' <> ID b'
  /\ exists root1 root2 ra rb,
       Tx_Bucket (db_tx db1) (BucketName (bs_options s)) = Some root1
       /\ Tx_Bucket (db_tx db2) (BucketName (bs_options s)) = Some root2
       /\ Bucket_Bucket root1 (ID a') = Some ra
       /\ Bucket_Bucket root2 (ID a') = Some ra
       /\ Bucket_Bucket root2 (ID b') = Some rb.
Proof.
  intros Ha Hb Hia Hib Hlen Hk1 Hk2 Hne HS1 HS2.
  pose proof (Save_assigns_ID s now1 key1 db db1 w w1 a a' None Ha Hia HS1) as Hida.
  pose proof (Save_assigns_ID s now2 key2 db1 db2 w1 w2 b b' None Hb Hib HS2) as Hidb.
  assert (Hdiff : ID a' <> ID b').
  { rewrite Hida, Hidb. intros E. apply Hne.
    apply (newSessionID_inj_upto (S (List.length key1))); [lia|assumption..]. }
  split; [exact Hdiff|].
  destruct (Save_success s now1 key1 db db1 w w1 a a' Ha HS1) as (_ & Hs1 & _).
  destruct (Save_success s now2 key2 db1 db2 w1 w2 b b' Hb HS2) as (_ & Hs2 & _).
  destruct (save_success s now1 db db1 a' Hs1)
    as (r0 & root1 & p1 & ra & _ & _ & _ & Hr1 & _ & Hba & _).
  destruct (save_success s now2 db1 db2 b' Hs2)
    as (root1' & root2 & p2 & rb & _ & Hr1' & _ & Hr2 & _ & Hbb & _ & _ & _ & _
        & Hother & _).
  assert (root1' = root1) by congruence. subst root1'.
  exists root1, root2, ra, rb.
  split; [exact Hr1|]. split; [exact Hr2|]. split; [exact Hba|].
  split; [|exact Hbb].
  unfold Bucket_Bucket in *. now rewrite (Hother (ID a') Hdiff).
Qed.

Lemma X18_new_sessions_do_not_collide_witness :
  let a' := mkSession "AEBA" [("k", "foo")] (mkOptions "/" "" 3600 false false) true "sid" in
  let b' := mkSession "AEBQ" [("k", "bar")] (mkOptions "/" "" 3600 false false) true "sid" in
  let db1 :=
    mkDB true [("sessions", Nested [("AEBA", Sample.record "foo" "3800");
                                    ("S1", Sample.record "foo" "100")])] in
  let db2 :=
    mkDB true [("sessions", Nested [("AEBA", Sample.record "foo" "3800");
                                    ("AEBQ", Sample.record "bar" "3900");
                                    ("S1", Sample.record "foo" "100")])] in
  ID a' <> ID b'
  /\ exists root1 root2 ra rb,
       Tx_Bucket (db_tx db1) (BucketName (bs_options (Sample.store 0))) = Some root1
       /\ Tx_Bucket (db_tx db2) (BucketName (bs_options (Sample.store 0))) = Some root2
       /\ Bucket_Bucket root1 (ID a') = Some ra
       /\ Bucket_Bucket root2 (ID a') = Some ra
       /\ Bucket_Bucket root2 (ID b') = Some rb.
Proof.
  intros a' b' db1 db2.
  apply (X18_new_sessions_do_not_collide (Sample.store 0) (clock 200 5) (clock 300 0)
           [1; 2] [1; 3] Sample.db1 db1 db2
           [] [mkCookie "sid" "sid:AEBA" "/" "" 3600 false false]
           [mkCookie "sid" "sid:AEBA" "/" "" 3600 false false;
            mkCookie "sid" "sid:AEBQ" "/" "" 3600 false false]
           (mkSession "" [("k", "foo")] (mkOptions "/" "" 3600 false false) true "sid") a'
           (mkSession "" [("k", "bar")] (mkOptions "/" "" 3600 false false) true "sid") b');
    try reflexivity; try (repeat constructor; lia).
  discriminate.
Defined.
